(** * Verification of the YouTube transcript viewer (app.py)

    A shallow embedding of [extract_video_id], [format_transcript],
    [get_transcript] and the two request handlers of app.py, together with
    the properties of the written specification that they satisfy or break. *)

From Stdlib Require Import ZArith NArith QArith Qround Lia.
From Stdlib Require Import DecimalN DecimalFacts SpecFloat.
From stdpp Require Import gmap list strings.

Set Default Proof Using "Type".

(** ** Python strings

    A Python [str] is a sequence of Unicode code points; [len] is the number
    of code points.  A code point is a natural number. *)

Abbreviation str := (list N).

(** [py "..."] is the [str] with the code points of an ASCII literal. *)
Fixpoint py (s : string) : str :=
  match s with
  | EmptyString => []
  | String a s' => Ascii.N_of_ascii a :: py s'
  end.

Arguments py s%_string : simpl never.

(** [sep.join(parts)]. *)
Fixpoint join (sep : str) (parts : list str) : str :=
  match parts with
  | [] => []
  | [p] => p
  | p :: ps => p ++ sep ++ join sep ps
  end.

(** [needle in hay] for Python strings. *)
Fixpoint starts_with (l s : str) : bool :=
  match l, s with
  | [], _ => true
  | a :: l', b :: s' => N.eqb a b && starts_with l' s'
  | _ :: _, [] => false
  end.

Fixpoint contains (needle hay : str) : bool :=
  starts_with needle hay ||
  match hay with
  | [] => false
  | _ :: hay' => contains needle hay'
  end.

(** ** The fragment of Python's [re] that app.py uses

    The three patterns of [extract_video_id] are built from literal text,
    character sets, a counted repetition [{11}], the greedy [.*], alternation
    inside a non-capturing group, one capturing group, and the anchors
    [^] and [$]. *)

Module Re.

Inductive regex : Type :=
| Lit (l : str)                 (* literal text, escapes resolved *)
| CharSet (p : N -> bool)       (* one character of a set: [...] or . *)
| Rep (r : regex) (n : nat)     (* r{n} *)
| Star (p : N -> bool)          (* greedy c*, c a one-character item *)
| Alt (r1 r2 : regex)           (* r1|r2, tried left to right *)
| Cat (r1 r2 : regex)           (* r1 followed by r2 *)
| Group (r : regex)             (* group 1 *)
| Bol                           (* ^ without MULTILINE *)
| Eol.                          (* $ without MULTILINE *)

(** The character [.] matches: anything but a newline (no DOTALL). *)
Definition dot (c : N) : bool := negb (c =? 10)%N.

(** [strip l s] removes the literal [l] from the front of [s]. *)
Fixpoint strip (l s : str) : option str :=
  match l, s with
  | [], _ => Some s
  | a :: l', b :: s' => if (a =? b)%N then strip l' s' else None
  | _ :: _, [] => None
  end.

Section Backtracking.
Context {A : Type}.

(** Greedy star over one-character items: take as many characters as
    possible, then give them back one at a time until the rest of the
    pattern succeeds. *)
Fixpoint star (p : N -> bool) (pos : nat) (s : str)
    (k : nat -> str -> option A) : option A :=
  match s with
  | c :: s' =>
      if p c then
        match star p (S pos) s' k with
        | Some a => Some a
        | None => k pos s
        end
      else k pos s
  | [] => k pos s
  end.

(** The backtracking matcher, in continuation-passing style: [pos] is the
    offset of [s] in the subject string, [g] the text of group 1 so far,
    and [k] the rest of the pattern.  The first success in the order of
    Python's engine is the result. *)
Fixpoint run (r : regex) (pos : nat) (s : str) (g : option str)
    (k : nat -> str -> option str -> option A) {struct r} : option A :=
  match r with
  | Lit l =>
      match strip l s with
      | Some s' => k (pos + length l) s' g
      | None => None
      end
  | CharSet p =>
      match s with
      | c :: s' => if p c then k (S pos) s' g else None
      | [] => None
      end
  | Rep r n =>
      (fix rep (n : nat) (pos : nat) (s : str) (g : option str) : option A :=
         match n with
         | O => k pos s g
         | S n' => run r pos s g (fun pos' s' g' => rep n' pos' s' g')
         end) n pos s g
  | Star p => star p pos s (fun pos' s' => k pos' s' g)
  | Alt r1 r2 =>
      match run r1 pos s g k with
      | Some a => Some a
      | None => run r2 pos s g k
      end
  | Cat r1 r2 => run r1 pos s g (fun pos' s' g' => run r2 pos' s' g' k)
  | Group r =>
      run r pos s g (fun pos' s' _ => k pos' s' (Some (take (pos' - pos) s)))
  | Bol => if (pos =? 0)%nat then k pos s g else None
  | Eol =>
      match s with
      | [] => k pos s g
      | [c] => if (c =? 10)%N then k pos s g else None
      | _ => None
      end
  end.
End Backtracking.

(** A match object, as far as app.py looks at it: the text of group 1
    ([None] when the group took no part in the match). *)
Definition match_obj := option str.

Definition group1 (m : match_obj) : option str := m.

Definition accept : nat -> str -> option str -> option match_obj :=
  fun _ _ g => Some g.

(** [re.match(r, s)]: the pattern must match at offset 0. *)
Definition re_match (r : regex) (s : str) : option match_obj :=
  run r 0 s None accept.

(** [re.search(r, s)]: the leftmost offset at which the pattern matches. *)
Fixpoint search_from (r : regex) (pos : nat) (s : str) : option match_obj :=
  match run r pos s None accept with
  | Some m => Some m
  | None =>
      match s with
      | [] => None
      | _ :: s' => search_from r (S pos) s'
      end
  end.

Definition re_search (r : regex) (s : str) : option match_obj :=
  search_from r 0 s.

End Re.

Import Re.

(** ** extract_video_id *)

(** The character set [[a-zA-Z0-9_-]]. *)
Definition id_char (c : N) : bool :=
  ((97 <=? c) && (c <=? 122) || (65 <=? c) && (c <=? 90) ||
   (48 <=? c) && (c <=? 57) || (c =? 95) || (c =? 45))%N.

(** [[?&]]. *)
Definition query_sep (c : N) : bool := ((c =? 63) || (c =? 38))%N.

(** [^[a-zA-Z0-9_-]{11}$] *)
Definition bare_id_re : regex :=
  Cat Bol (Cat (Rep (CharSet id_char) 11) Eol).

(** [(?:youtube\.com\/watch\?v=|youtu\.be\/|youtube\.com\/embed\/)([a-zA-Z0-9_-]{11})] *)
Definition url_re : regex :=
  Cat (Alt (Lit (py "youtube.com/watch?v="))
        (Alt (Lit (py "youtu.be/")) (Lit (py "youtube.com/embed/"))))
      (Group (Rep (CharSet id_char) 11)).

(** [youtube\.com\/.*[?&]v=([a-zA-Z0-9_-]{11})] *)
Definition query_re : regex :=
  Cat (Lit (py "youtube.com/"))
    (Cat (Star dot)
      (Cat (CharSet query_sep)
        (Cat (Lit (py "v=")) (Group (Rep (CharSet id_char) 11))))).

Definition patterns : list regex := [url_re; query_re].

(** The [for pattern in patterns] loop with its early [return]. *)
Fixpoint first_capture (ps : list regex) (url_or_id : str) : option str :=
  match ps with
  | [] => None
  | pattern :: ps' =>
      match re_search pattern url_or_id with
      | Some m => group1 m
      | None => first_capture ps' url_or_id
      end
  end.

(** [extract_video_id]; Python's [None] is [None]. *)
Definition extract_video_id (url_or_id : str) : option str :=
  if (length url_or_id =? 11)%nat && bool_decide (is_Some (re_match bare_id_re url_or_id))
  then Some url_or_id
  else first_capture patterns url_or_id.

(** ** format_transcript

    A start offset is a finite number (a Python [int] or [float]).  Every
    such value is a rational, and offsets are rationals here, with exact
    arithmetic.  That is what Python computes on every [int], and on every
    [float] [x] with [0 <= x < 2^53], where [x // 60] and [x % 60] involve
    no rounding, and on every whole-number [float] above [-2^53].  Elsewhere
    float arithmetic rounds ([Float64] below), and the properties of the
    labels are stated within these bounds. *)

Record entry : Type := Entry { start : Q; text : str }.

Record formatted_entry : Type :=
  Formatted { time : Q; ftext : str; formatted_time : str }.

(** [x // y], exactly (the result of a floor division is integral).  On
    floats Python rounds the quotient to a double: from about 2^57 on,
    [int(x // 60)] is no longer [floor(x / 60)]. *)
Definition floordiv (x y : Q) : Q := inject_Z (Qfloor (x / y)).

(** [x % y], exactly: the remainder that goes with floor division.  On a
    negative float Python adds [y] to C's [fmod] and rounds the sum. *)
Definition pymod (x y : Q) : Q := x - y * inject_Z (Qfloor (x / y)).

(** [int(x)]: truncation toward zero. *)
Definition int_of (x : Q) : Z :=
  if Qle_bool 0 x then Qfloor x else Qceiling x.

(** Decimal digits as characters. *)
Fixpoint digits (d : Decimal.uint) : str :=
  match d with
  | Decimal.Nil => []
  | Decimal.D0 d => 48%N :: digits d
  | Decimal.D1 d => 49%N :: digits d
  | Decimal.D2 d => 50%N :: digits d
  | Decimal.D3 d => 51%N :: digits d
  | Decimal.D4 d => 52%N :: digits d
  | Decimal.D5 d => 53%N :: digits d
  | Decimal.D6 d => 54%N :: digits d
  | Decimal.D7 d => 55%N :: digits d
  | Decimal.D8 d => 56%N :: digits d
  | Decimal.D9 d => 57%N :: digits d
  end.

(** [f"{z:02d}"]: sign, then the decimal digits of [|z|], zero-padded
    between the two up to a total width of 2. *)
Definition format_02d (z : Z) : str :=
  let sign := if (z <? 0)%Z then py "-" else [] in
  let body := digits (N.to_uint (Z.abs_N z)) in
  sign ++ replicate (2 - length sign - length body) 48%N ++ body.

(** [f"{int(start // 60):02d}:{int(start % 60):02d}"] *)
Definition format_time (start : Q) : str :=
  format_02d (int_of (floordiv start 60)) ++ py ":" ++
  format_02d (int_of (pymod start 60)).

Definition format_entry (e : entry) : formatted_entry :=
  {| time := start e; ftext := text e; formatted_time := format_time (start e) |}.

(** The loop appends one formatted entry per raw entry. *)
Definition format_transcript (transcript_list : list entry) : list formatted_entry :=
  fold_left
    (fun formatted_transcript e => formatted_transcript ++ [format_entry e])
    transcript_list [].

(** ** The label of a float offset

    What [f"{int(start // 60):02d}:{int(start % 60):02d}"] computes when
    [start] is a [float]: binary64 arithmetic with round to nearest even, as
    CPython's float operators do it.  A float is a [spec_float] of the
    standard library with 53 bits of precision. *)

Module Float64.

Definition prec : Z := 53.
Definition emax : Z := 1024.

(** [float(z)] for a Python [int] that fits. *)
Definition of_Z (z : Z) : spec_float := binary_normalize prec emax z 0 false.

(** The exact value of a finite float. *)
Definition value (x : spec_float) : option Q :=
  match x with
  | S754_zero _ => Some 0%Q
  | S754_finite s m e =>
      Some (if (0 <=? e)%Z then inject_Z (cond_Zopp s (Z.pos m) * 2 ^ e)
            else Qmake (cond_Zopp s (Z.pos m)) (Z.to_pos (2 ^ (- e))))
  | _ => None
  end.

Definition is_zero (x : spec_float) : bool :=
  match x with
  | S754_zero _ => true
  | _ => false
  end.

(** [x < 0.0] *)
Definition negative (x : spec_float) : bool := SFltb x (S754_zero false).

(** [copysign(0.0, x)] *)
Definition zero_like (x : spec_float) : spec_float :=
  match x with
  | S754_zero s | S754_infinity s | S754_finite s _ _ => S754_zero s
  | S754_nan => S754_zero false
  end.

(** C's [fmod]: the remainder of the truncated division, computed exactly;
    it has the sign of [x]. *)
Definition fmod (x y : spec_float) : spec_float :=
  match x, y with
  | S754_nan, _ | _, S754_nan => S754_nan
  | S754_infinity _, _ | _, S754_zero _ => S754_nan
  | S754_zero _, _ => x
  | S754_finite _ _ _, S754_infinity _ => x
  | S754_finite sx mx ex, S754_finite _ my ey =>
      let e := Z.min ex ey in
      let X := (Z.pos mx * 2 ^ (ex - e))%Z in
      let Y := (Z.pos my * 2 ^ (ey - e))%Z in
      binary_normalize prec emax (cond_Zopp sx (X mod Y)) e sx
  end.

(** C's [floor]. *)
Definition floor (x : spec_float) : spec_float :=
  match x with
  | S754_finite s m e =>
      if (0 <=? e)%Z then x
      else binary_normalize prec emax (cond_Zopp s (Z.pos m) / 2 ^ (- e)) 0 s
  | _ => x
  end.

(** [int(x)]: truncation toward zero; [None] is the [OverflowError] or
    [ValueError] that an infinity or a NaN raises. *)
Definition to_int (x : spec_float) : option Z :=
  match x with
  | S754_zero _ => Some 0%Z
  | S754_finite s m e =>
      Some (cond_Zopp s (if (0 <=? e)%Z then Z.pos m * 2 ^ e
                         else Z.pos m / 2 ^ (- e)))
  | _ => None
  end.

Definition one : spec_float := of_Z 1.

(** [0.5] *)
Definition half : spec_float := S754_finite false 4503599627370496 (-53).

(** CPython's [_float_div_mod]: quotient and remainder of the floor
    division of two floats, for [wx] other than zero. *)
Definition float_div_mod (vx wx : spec_float) : spec_float * spec_float :=
  let mod0 := fmod vx wx in
  let div0 := SFdiv prec emax (SFsub prec emax vx mod0) wx in
  let '(mod1, div1) :=
    if negb (is_zero mod0) then
      if xorb (negative wx) (negative mod0)
      then (SFadd prec emax mod0 wx, SFsub prec emax div0 one)
      else (mod0, div0)
    else (zero_like wx, div0) in
  let floordiv :=
    if negb (is_zero div1) then
      let f := floor div1 in
      if SFltb half (SFsub prec emax div1 f) then SFadd prec emax f one else f
    else zero_like (SFdiv prec emax vx wx) in
  (floordiv, mod1).

(** [vx // wx] on floats; [None] is [ZeroDivisionError]. *)
Definition floordiv (vx wx : spec_float) : option spec_float :=
  if is_zero wx then None else Some (float_div_mod vx wx).1.

(** [vx % wx] on floats (CPython's [float_rem]). *)
Definition rem (vx wx : spec_float) : option spec_float :=
  if is_zero wx then None else
  let mod0 := fmod vx wx in
  Some (if negb (is_zero mod0) then
          if xorb (negative wx) (negative mod0) then SFadd prec emax mod0 wx
          else mod0
        else zero_like wx).

(** [f"{int(start // 60):02d}:{int(start % 60):02d}"] for a float [start];
    [None] when [int] raises. *)
Definition format_time (start : spec_float) : option str :=
  q ← floordiv start (of_Z 60);
  minutes ← to_int q;
  r ← rem start (of_Z 60);
  seconds ← to_int r;
  Some (format_02d minutes ++ py ":" ++ format_02d seconds).

(** The float [n / 4]. *)
Definition quarters (n : Z) : spec_float := binary_normalize prec emax n (-2) false.

End Float64.

(** ** The environment, the transcript service and exceptions

    [get_transcript] reads [os.environ], calls the transcript library and
    prints.  A call is a state transformer over the process environment, the
    state of the outside world and the trace of what was done, and it ends
    with a value or a raised exception. *)

(** An exception, as far as app.py looks at it: [str(e)]. *)
Record exn : Type := Exception { message : str }.

Inductive result (A : Type) : Type :=
| Ok (a : A)
| Raise (e : exn).
Arguments Ok {A} a.
Arguments Raise {A} e.

Record transcript_info : Type := Transcript { language_code : str }.

Inductive event : Type :=
| Getenv (name : str)
| FetchTranscript (video_id : str) (proxies : option (gmap str str))
| ListTranscripts (video_id : str)
| Print (line : str).

(** The transcript library: both calls may succeed or raise, and may
    change the state of the world. *)
Class YouTubeTranscriptApi (W : Type) : Type := {
  api_get_transcript : str -> option (gmap str str) -> W -> result (list entry) * W;
  api_list_transcripts : str -> W -> result (list transcript_info) * W
}.

Record state (W : Type) : Type :=
  State { environ : gmap str str; world : W; trace : list event }.
Arguments State {W} environ world trace.
Arguments environ {W} s.
Arguments world {W} s.
Arguments trace {W} s.

Definition M (W A : Type) : Type := state W -> result A * state W.

Section Effects.
Context {W : Type} {Api : YouTubeTranscriptApi W}.

Definition ret {A} (a : A) : M W A := fun st => (Ok a, st).

Definition raise {A} (e : exn) : M W A := fun st => (Raise e, st).

Definition bind {A B} (m : M W A) (f : A -> M W B) : M W B :=
  fun st =>
    match m st with
    | (Ok a, st') => f a st'
    | (Raise e, st') => (Raise e, st')
    end.

(** [try: body  except ... as e: handler e] *)
Definition try_except {A} (body : M W A) (handler : exn -> M W A) : M W A :=
  fun st =>
    match body st with
    | (Ok a, st') => (Ok a, st')
    | (Raise e, st') => handler e st'
    end.

Definition log (ev : event) (st : state W) : state W :=
  State (environ st) (world st) (trace st ++ [ev]).

(** [os.getenv(name)] *)
Definition os_getenv (name : str) : M W (option str) :=
  fun st => (Ok (environ st !! name), log (Getenv name) st).

(** [print(line)] *)
Definition print (line : str) : M W unit :=
  fun st => (Ok tt, log (Print line) st).

(** [YouTubeTranscriptApi.get_transcript(video_id, proxies=proxies)];
    [proxies] is [None] when the argument is not given. *)
Definition fetch (video_id : str) (proxies : option (gmap str str))
  : M W (list entry) :=
  fun st =>
    let st1 := log (FetchTranscript video_id proxies) st in
    let '(r, w') := api_get_transcript video_id proxies (world st1) in
    (r, State (environ st1) w' (trace st1)).

(** [YouTubeTranscriptApi.list_transcripts(video_id)] *)
Definition list_transcripts (video_id : str) : M W (list transcript_info) :=
  fun st =>
    let st1 := log (ListTranscripts video_id) st in
    let '(r, w') := api_list_transcripts video_id (world st1) in
    (r, State (environ st1) w' (trace st1)).
End Effects.

Notation "x <- m ;; k" := (bind m (fun x => k))
  (at level 100, m at next level, right associativity).
Notation "m ;;; k" := (bind m (fun _ => k))
  (at level 100, right associativity).

(** ** get_transcript *)

(** Truth value of [os.getenv(...)]: set and not empty. *)
Definition configured (proxy : option str) : option str :=
  match proxy with
  | Some (c :: p) => Some (c :: p)
  | _ => None
  end.

(** [{'http': f'http://{proxy}', 'https': f'http://{proxy}'}] *)
Definition proxies_for (proxy : str) : gmap str str :=
  <[py "http" := py "http://" ++ proxy]>
    (<[py "https" := py "http://" ++ proxy]> ∅).

Section Fetcher.
Context {W : Type} {Api : YouTubeTranscriptApi W}.

(** The [if proxy:] block.  [Some t] is its [return]; [None] means that
    control falls through to the direct attempt. *)
Definition proxy_attempt (video_id : str) (proxy : option str)
  : M W (option (list formatted_entry)) :=
  match configured proxy with
  | Some proxy =>
      try_except
        (transcript_list <- fetch video_id (Some (proxies_for proxy)) ;;
         ret (Some (format_transcript transcript_list)))
        (fun e =>
           print (py "Proxy failed (" ++ proxy ++ py "): " ++ message e) ;;;
           ret None)
  | None => ret None
  end.

(** The handler of the direct attempt's failure [e]. *)
Definition enumerate_and_fail {A} (video_id : str) (e : exn) : M W A :=
  try_except
    (available <- list_transcripts video_id ;;
     let available_languages := map language_code available in
     raise (Exception
       (py "Could not get transcript. Available languages: "
          ++ join (py ", ") available_languages)))
    (fun _ =>
       raise (Exception
         (py "No transcript available for video " ++ video_id ++ py ": "
            ++ message e))).

Definition direct_attempt (video_id : str) : M W (list formatted_entry) :=
  try_except
    (transcript_list <- fetch video_id None ;;
     ret (format_transcript transcript_list))
    (fun e => enumerate_and_fail video_id e).

Definition get_transcript (video_id : str) : M W (list formatted_entry) :=
  proxy <- os_getenv (py "YOUTUBE_PROXY") ;;
  returned <- proxy_attempt video_id proxy ;;
  match returned with
  | Some formatted => ret formatted
  | None => direct_attempt video_id
  end.
End Fetcher.

(** ** The request handlers *)

(** What [render_template] is given: the template and its variables. *)
Inductive page : Type :=
| ErrorPage (error_message : str)
| TranscriptPage (video_id : str) (transcript : list formatted_entry)
    (proxy_used : str).

#[warnings="-register-all"]
Inductive json : Type :=
| JNull
| JBool (b : bool)
| JNum (q : Q)
| JStr (s : str)
| JArr (items : list json)
| JObj (fields : list (str * json)).

(** [obj[key]] on a JSON object. *)
Fixpoint field (key : str) (fields : list (str * json)) : option json :=
  match fields with
  | [] => None
  | (k, v) :: fields' =>
      if bool_decide (k = key) then Some v else field key fields'
  end.

Definition json_field (key : str) (j : json) : option json :=
  match j with
  | JObj fields => field key fields
  | _ => None
  end.

Definition json_of_entry (e : formatted_entry) : json :=
  JObj [(py "time", JNum (time e)); (py "text", JStr (ftext e));
        (py "formatted_time", JStr (formatted_time e))].

Definition json_of_option (o : option str) : json :=
  match o with
  | Some s => JStr s
  | None => JNull
  end.

(** [request.args.get(key)]: the first value given for [key]. *)
Fixpoint args_get (args : list (str * str)) (key : str) : option str :=
  match args with
  | [] => None
  | (k, v) :: args' =>
      if bool_decide (k = key) then Some v else args_get args' key
  end.

Section Handlers.
Context {W : Type} {Api : YouTubeTranscriptApi W}.

(** [/watch]: a page and an HTTP status. *)
Definition watch (args : list (str * str)) : M W (page * Z) :=
  let video_id_param := args_get args (py "v") in
  match video_id_param with
  | None | Some [] =>
      ret (ErrorPage (py "No video ID provided. Please use /watch?v=VIDEO_ID"),
           400%Z)
  | Some (c :: p) =>
      let video_id := extract_video_id (c :: p) in
      match video_id with
      | None | Some [] => ret (ErrorPage (py "Invalid video ID format"), 400%Z)
      | Some (d :: i) =>
          let video_id := d :: i in
          try_except
            (transcript <- get_transcript video_id ;;
             proxy <- os_getenv (py "YOUTUBE_PROXY") ;;
             let proxy_used := default (py "None") proxy in
             ret (TranscriptPage video_id transcript proxy_used, 200%Z))
            (fun e => ret (ErrorPage (message e), 500%Z))
      end
  end.

(** [/api/transcript/<video_id>]: a JSON body and an HTTP status. *)
Definition api_transcript (video_id : str) : M W (json * Z) :=
  try_except
    (transcript <- get_transcript video_id ;;
     proxy <- os_getenv (py "YOUTUBE_PROXY") ;;
     ret (JObj [(py "success", JBool true);
                (py "video_id", JStr video_id);
                (py "transcript", JArr (map json_of_entry transcript));
                (py "proxy_used", json_of_option proxy)], 200%Z))
    (fun e =>
       ret (JObj [(py "success", JBool false);
                  (py "error", JStr (message e))], 500%Z)).
End Handlers.

(** ** Specification vocabulary for the resolver *)

(** A canonical id: exactly 11 characters of the allowed set. *)
Definition is_id (s : str) : Prop :=
  length s = 11 ∧ Forall (fun c => id_char c = true) s.

(** The literal prefixes of the first URL pattern. *)
Definition markers : list str :=
  [py "youtube.com/watch?v="; py "youtu.be/"; py "youtube.com/embed/"].

(** [t] starts with one of the three URL forms followed by the id [id]. *)
Definition url_match (t id : str) : Prop :=
  ∃ m rest, m ∈ markers ∧ t = m ++ id ++ rest ∧ is_id id.

(** [t] starts with [youtube.com/], and after [n] further characters, none
    of them a newline, comes a [?v=] or [&v=] parameter whose value starts
    with the id [id]. *)
Definition query_match (t : str) (n : nat) (id : str) : Prop :=
  ∃ mid q rest,
    t = py "youtube.com/" ++ mid ++ q :: py "v=" ++ id ++ rest ∧
    length mid = n ∧ (10%N ∉ mid) ∧ (q = 63%N ∨ q = 38%N) ∧ is_id id.

(** The first [n] characters of [s] exist and all satisfy [p]. *)
Definition all_n (p : N -> bool) (n : nat) (s : str) : bool :=
  bool_decide (n ≤ length s) && forallb p (take n s).

(** What the patterns compute at one offset, as plain functions: the id
    after a literal prefix, the first URL pattern, and the [[?&]v=] tail of
    the second one. *)
Definition id_after (m t : str) : option match_obj :=
  match strip m t with
  | Some t' => if all_n id_char 11 t' then Some (Some (take 11 t')) else None
  | None => None
  end.

Definition url_at (t : str) : option match_obj :=
  match id_after (py "youtube.com/watch?v=") t with
  | Some m => Some m
  | None =>
      match id_after (py "youtu.be/") t with
      | Some m => Some m
      | None => id_after (py "youtube.com/embed/") t
      end
  end.

Definition param_at (s : str) : option match_obj :=
  match s with
  | q :: s' => if query_sep q then id_after (py "v=") s' else None
  | [] => None
  end.

Definition query_at (t : str) : option match_obj :=
  match strip (py "youtube.com/") t with
  | Some t' => star dot 0 t' (fun _ s' => param_at s')
  | None => None
  end.

(** The first URL pattern matches [s] at offset [i] and captures [id]. *)
Definition url_site (s : str) (i : nat) (id : str) : Prop :=
  ∃ pre t, s = pre ++ t ∧ length pre = i ∧ url_match t id.

(** The second pattern matches [s] at offset [i], its [.*] covering [n]
    characters, and captures [id]. *)
Definition query_site (s : str) (i n : nat) (id : str) : Prop :=
  ∃ pre t, s = pre ++ t ∧ length pre = i ∧ query_match t n id.

(** More than 11 consecutive allowed characters. *)
Definition id_run (run : str) : Prop :=
  11 < length run ∧ Forall (fun c => id_char c = true) run.

(** [s] has a [youtube.com/watch?v=], [youtu.be/] or [youtube.com/embed/]
    segment, or a [v=] parameter after [youtube.com/], that begins with
    [run]. *)
Definition overlong_segment (s run : str) : Prop :=
  ∃ pre post,
    (∃ m, m ∈ markers ∧ s = pre ++ m ++ run ++ post) ∨
    (∃ mid q, (10%N ∉ mid) ∧ (q = 63%N ∨ q = 38%N) ∧
       s = pre ++ py "youtube.com/" ++ mid ++ q :: py "v=" ++ run ++ post).

(** The segment beginning with [run] is the one the search selects: the
    leftmost match of the first pattern; or, when the first pattern matches
    nowhere, the last [v=] parameter of its line after the leftmost
    [youtube.com/] from which the second pattern matches. *)
Inductive selected_segment (s run : str) : Prop :=
| selected_url pre m post :
    m ∈ markers ->
    s = pre ++ m ++ run ++ post ->
    (∀ j id, j < length pre -> ¬ url_site s j id) ->
    selected_segment s run
| selected_query pre mid q post :
    (10%N ∉ mid) -> (q = 63%N ∨ q = 38%N) ->
    s = pre ++ py "youtube.com/" ++ mid ++ q :: py "v=" ++ run ++ post ->
    (∀ j id, ¬ url_site s j id) ->
    (∀ j n id, j < length pre -> ¬ query_site s j n id) ->
    (∀ n id, length mid < n -> ¬ query_site s (length pre) n id) ->
    selected_segment s run.

(** ** Specification vocabulary for the formatter *)

(** The spec's rendering of a minute or second count: decimal, zero-padded
    to at least two digits. *)
Definition two_digits (n : N) : str :=
  let d := digits (N.to_uint n) in
  if (n <? 10)%N then 48%N :: d else d.

(** Reading a string of decimal digits back. *)
Fixpoint undigits (s : str) : option Decimal.uint :=
  match s with
  | [] => Some Decimal.Nil
  | c :: s' =>
      d ← undigits s';
      if (c =? 48)%N then Some (Decimal.D0 d) else
      if (c =? 49)%N then Some (Decimal.D1 d) else
      if (c =? 50)%N then Some (Decimal.D2 d) else
      if (c =? 51)%N then Some (Decimal.D3 d) else
      if (c =? 52)%N then Some (Decimal.D4 d) else
      if (c =? 53)%N then Some (Decimal.D5 d) else
      if (c =? 54)%N then Some (Decimal.D6 d) else
      if (c =? 55)%N then Some (Decimal.D7 d) else
      if (c =? 56)%N then Some (Decimal.D8 d) else
      if (c =? 57)%N then Some (Decimal.D9 d) else None
  end.

Definition decode (s : str) : option N := N.of_uint <$> undigits s.

(** ** Specification vocabulary for the fetcher and the handlers *)

(** Counting events of one kind in a trace. *)
Fixpoint count (f : event -> bool) (evs : list event) : nat :=
  match evs with
  | [] => 0
  | ev :: evs' => (if f ev then 1 else 0) + count f evs'
  end.

Definition is_proxy_fetch (ev : event) : bool :=
  match ev with
  | FetchTranscript _ (Some _) => true
  | _ => false
  end.

Definition is_direct_fetch (ev : event) : bool :=
  match ev with
  | FetchTranscript _ None => true
  | _ => false
  end.

Definition is_enumeration (ev : event) : bool :=
  match ev with
  | ListTranscripts _ => true
  | _ => false
  end.

(** The failure that reaches the caller after a failed direct attempt. *)
Definition no_transcript (video_id : str) (e : exn) : exn :=
  Exception (py "No transcript available for video " ++ video_id ++ py ": "
               ++ message e).

(** Events that name a video name this one. *)
Definition about (video_id : str) (ev : event) : Prop :=
  match ev with
  | FetchTranscript v _ | ListTranscripts v => v = video_id
  | _ => True
  end.

(** ** A scripted transcript service

    Every retrieval fails, with a message that tells the proxied attempt from
    the direct one; enumeration answers with the given language codes, or
    fails when there are none to give. *)
Definition scripted (languages : option (list str)) : YouTubeTranscriptApi unit := {|
  api_get_transcript := fun _ proxies w =>
    (Raise (Exception (match proxies with
                       | Some _ => py "proxy refused"
                       | None => py "blocked"
                       end)), w);
  api_list_transcripts := fun _ w =>
    (match languages with
     | Some codes => Ok (map Transcript codes)
     | None => Raise (Exception (py "transcripts disabled"))
     end, w)
|}.

(** A service on which every retrieval answers with the same segments. *)
Definition canned (segments : list entry) : YouTubeTranscriptApi unit := {|
  api_get_transcript := fun _ _ w => (Ok segments, w);
  api_list_transcripts := fun _ w => (Ok [Transcript (py "en")], w)
|}.

Definition proxied_env : gmap str str :=
  {[ py "YOUTUBE_PROXY" := py "10.0.0.1:3128" ]}.

Definition absent {A} (o : option A) : bool :=
  match o with
  | None => true
  | Some _ => false
  end.

(** ** Startup

    The statements of the main block that come before [app.run]: the proxy
    is read with a default address and a banner is printed. *)
Definition startup_banner {W : Type} : M W unit :=
  proxy <- os_getenv (py "YOUTUBE_PROXY") ;;
  let proxy := default (py "45.76.97.117:3128") proxy in
  match proxy with
  | _ :: _ => print (py "Using proxy: " ++ proxy)
  | [] => print (py "No proxy configured - using direct connection")
  end.

(** ** Further specification vocabulary *)

(** Splitting a label at its first colon. *)
Fixpoint split_colon (s : str) : option (str * str) :=
  match s with
  | [] => None
  | c :: s' =>
      if (c =? 58)%N then Some ([], s')
      else ab ← split_colon s'; Some (c :: ab.1, ab.2)
  end.

(** Reading a [MM:SS] label back: the whole seconds it stands for. *)
Definition parse_time (label : str) : option N :=
  ab ← split_colon label;
  m ← decode ab.1;
  sec ← decode ab.2;
  Some (60 * m + sec)%N.

Definition is_print (ev : event) : bool :=
  match ev with
  | Print _ => true
  | _ => false
  end.

(** A service whose proxied retrievals fail and whose direct ones answer
    with the given segments. *)
Definition proxy_down (segments : list entry) : YouTubeTranscriptApi unit := {|
  api_get_transcript := fun _ proxies w =>
    (match proxies with
     | Some _ => Raise (Exception (py "proxy refused"))
     | None => Ok segments
     end, w);
  api_list_transcripts := fun _ w => (Ok [Transcript (py "en")], w)
|}.

(** ** The matcher *)

Section MatcherFacts.
Context {A : Type}.
Implicit Types (k : nat -> str -> option str -> option A).

Lemma strip_app l s : strip l (l ++ s) = Some s.
Proof.
  induction l as [|a l IH]; [done|]. cbn. by rewrite N.eqb_refl.
Qed.

Lemma strip_Some l s s' : strip l s = Some s' -> s = l ++ s'.
Proof.
  revert s. induction l as [|a l IH]; intros [|b s]; cbn; try congruence.
  destruct (N.eqb_spec a b) as [->|]; [|done].
  intros H. by rewrite (IH _ H).
Qed.

Lemma all_n_cons p n c s :
  all_n p (S n) (c :: s) = p c && all_n p n s.
Proof.
  unfold all_n. cbn [take forallb length].
  destruct (p c); cbn; [|by rewrite andb_false_r].
  f_equal. apply bool_decide_ext. lia.
Qed.

Lemma all_n_nil p n : all_n p (S n) [] = false.
Proof. unfold all_n. cbn. rewrite bool_decide_eq_false_2; [done|lia]. Qed.

Lemma all_n_app p n id rest :
  length id = n -> Forall (fun c => p c = true) id -> all_n p n (id ++ rest) = true.
Proof.
  intros <- Hall. unfold all_n. rewrite take_app_length.
  rewrite bool_decide_eq_true_2 by (rewrite length_app; lia).
  cbn. apply forallb_forall. intros c Hc.
  rewrite Forall_forall in Hall. apply Hall. by apply list_elem_of_In.
Qed.

Lemma all_n_split p n s :
  all_n p n s = true ->
  s = take n s ++ drop n s ∧ length (take n s) = n ∧
  Forall (fun c => p c = true) (take n s).
Proof.
  unfold all_n. intros [Hlen Hall]%andb_true_iff.
  apply bool_decide_eq_true_1 in Hlen.
  split; [by rewrite take_drop|]. split; [rewrite length_take; lia|].
  apply Forall_forall. intros c Hc. rewrite forallb_forall in Hall.
  apply Hall. by apply list_elem_of_In.
Qed.

Lemma run_rep_set p n pos s g k :
  run (Rep (CharSet p) n) pos s g k =
  if all_n p n s then k (pos + n) (drop n s) g else None.
Proof.
  revert pos s. induction n as [|n IH]; intros pos s.
  - cbn. unfold all_n. cbn. rewrite bool_decide_eq_true_2 by lia.
    cbn. by rewrite Nat.add_0_r.
  - destruct s as [|c s].
    + by rewrite all_n_nil.
    + rewrite all_n_cons. cbn [run]. destruct (p c); [|done].
      cbn [andb]. change (run (Rep (CharSet p) n) (S pos) s g k
        = if all_n p n s then k (pos + S n) (drop (S n) (c :: s)) g else None).
      rewrite IH. cbn [drop]. by replace (S pos + n) with (pos + S n) by lia.
Qed.

Lemma star_None p pos s (k : nat -> str -> option A) :
  star p pos s k = None ↔
  ∀ j, j ≤ length s -> forallb p (take j s) = true -> k (pos + j) (drop j s) = None.
Proof.
  revert pos. induction s as [|c s IH]; intros pos; cbn [star].
  - split.
    + intros H j Hj _. cbn in Hj. replace j with 0 by lia.
      by rewrite Nat.add_0_r.
    + intros H. specialize (H 0). rewrite Nat.add_0_r in H. apply H; [cbn; lia|done].
  - destruct (p c) eqn:Hc.
    + destruct (star p (S pos) s k) eqn:Hs.
      * split; [done|]. intros H. exfalso.
        assert (star p (S pos) s k = None) as Hn; [|congruence].
        apply IH. intros j Hj Hall. specialize (H (S j)).
        replace (pos + S j) with (S pos + j) in H by lia.
        apply H; [cbn; lia|]. cbn. by rewrite Hc.
      * rewrite IH in Hs. split.
        -- intros H0 [|j] Hj Hall.
           ++ by rewrite Nat.add_0_r.
           ++ replace (pos + S j) with (S pos + j) by lia. cbn [drop].
              apply Hs; [cbn in Hj; lia|]. cbn in Hall. by rewrite Hc in Hall.
        -- intros H. specialize (H 0). rewrite Nat.add_0_r in H.
           apply H; [lia|done].
    + split.
      * intros H0 [|j] Hj Hall.
        -- by rewrite Nat.add_0_r.
        -- cbn in Hall. by rewrite Hc in Hall.
      * intros H. specialize (H 0). rewrite Nat.add_0_r in H.
        apply H; [lia|done].
Qed.

Lemma star_Some p pos s (k : nat -> str -> option A) a :
  star p pos s k = Some a ↔
  ∃ j, j ≤ length s ∧ forallb p (take j s) = true ∧
       k (pos + j) (drop j s) = Some a ∧
       ∀ j', j < j' -> j' ≤ length s -> forallb p (take j' s) = true ->
             k (pos + j') (drop j' s) = None.
Proof.
  revert pos a. induction s as [|c s IH]; intros pos a; cbn [star].
  - split.
    + intros H. exists 0. rewrite Nat.add_0_r. repeat split; try done.
      intros j' ? Hlen. cbn in Hlen. lia.
    + intros (j & Hj & _ & Hk & _). cbn in Hj. replace j with 0 in Hk by lia.
      by rewrite Nat.add_0_r in Hk.
  - assert (Hzero : k pos (c :: s) = Some a ->
              (∀ j', 0 < j' -> j' ≤ length (c :: s) ->
                     forallb p (take j' (c :: s)) = true ->
                     k (pos + j') (drop j' (c :: s)) = None) ->
              ∃ j, j ≤ length (c :: s) ∧ forallb p (take j (c :: s)) = true ∧
                   k (pos + j) (drop j (c :: s)) = Some a ∧
                   ∀ j', j < j' -> j' ≤ length (c :: s) ->
                         forallb p (take j' (c :: s)) = true ->
                         k (pos + j') (drop j' (c :: s)) = None).
    { intros Hk Hlater. exists 0. rewrite Nat.add_0_r.
      repeat split; [lia|done|done]. }
    destruct (p c) eqn:Hc.
    + destruct (star p (S pos) s k) eqn:Hs.
      * rewrite IH in Hs. destruct Hs as (j & Hj & Hall & Hk & Hlater). split.
        -- intros [= <-]. exists (S j).
           replace (pos + S j) with (S pos + j) by lia.
           repeat split; [cbn; lia|cbn; by rewrite Hc|done|].
           intros [|j'] ? Hlen Hall'; [lia|].
           replace (pos + S j') with (S pos + j') by lia. cbn [drop].
           apply Hlater; [lia|cbn in Hlen; lia|]. cbn in Hall'.
           by rewrite Hc in Hall'.
        -- intros (j0 & Hj0 & Hall0 & Hk0 & Hlater0).
           destruct (decide (j0 = S j)) as [->|Hne].
           ++ replace (pos + S j) with (S pos + j) in Hk0 by lia.
              cbn [drop] in Hk0. congruence.
           ++ destruct (decide (j0 < S j)).
              ** specialize (Hlater0 (S j)).
                 replace (pos + S j) with (S pos + j) in Hlater0 by lia.
                 cbn [drop] in Hlater0. rewrite Hlater0 in Hk; [done|lia|cbn; lia|].
                 cbn. by rewrite Hc.
              ** destruct j0 as [|j0]; [lia|].
                 specialize (Hlater j0).
                 replace (pos + S j0) with (S pos + j0) in Hk0 by lia.
                 cbn [drop] in Hk0. rewrite Hlater in Hk0; [done|lia|cbn in Hj0; lia|].
                 cbn in Hall0. by rewrite Hc in Hall0.
      * rewrite star_None in Hs. split.
        -- intros Hk. apply Hzero; [done|].
           intros [|j'] ? Hlen Hall'; [lia|].
           replace (pos + S j') with (S pos + j') by lia. cbn [drop].
           apply Hs; [cbn in Hlen; lia|]. cbn in Hall'. by rewrite Hc in Hall'.
        -- intros (j0 & Hj0 & Hall0 & Hk0 & _). destruct j0 as [|j0].
           ++ by rewrite Nat.add_0_r in Hk0.
           ++ replace (pos + S j0) with (S pos + j0) in Hk0 by lia.
              cbn [drop] in Hk0. rewrite Hs in Hk0; [done|cbn in Hj0; lia|].
              cbn in Hall0. by rewrite Hc in Hall0.
    + split.
      * intros Hk. apply Hzero; [done|].
        intros [|j'] ? Hlen Hall'; [lia|]. cbn in Hall'. by rewrite Hc in Hall'.
      * intros (j0 & Hj0 & Hall0 & Hk0 & _). destruct j0 as [|j0].
        -- by rewrite Nat.add_0_r in Hk0.
        -- cbn in Hall0. by rewrite Hc in Hall0.
Qed.
End MatcherFacts.

Lemma search_from_None r pos s :
  search_from r pos s = None ↔
  ∀ i, i ≤ length s -> run r (pos + i) (drop i s) None accept = None.
Proof.
  revert pos. induction s as [|c s IH]; intros pos; cbn [search_from].
  - destruct (run r pos [] None accept) eqn:Hr.
    + split; [done|]. intros H. specialize (H 0).
      rewrite Nat.add_0_r in H. cbn in H. rewrite H in Hr; [done|lia].
    + split; [|done]. intros _ i Hi. cbn in Hi. replace i with 0 by lia.
      by rewrite Nat.add_0_r.
  - destruct (run r pos (c :: s) None accept) eqn:Hr.
    + split; [done|]. intros H. specialize (H 0).
      rewrite Nat.add_0_r in H. cbn in H. rewrite H in Hr; [done|lia].
    + rewrite IH. split.
      * intros H [|i] Hi; [by rewrite Nat.add_0_r|].
        replace (pos + S i) with (S pos + i) by lia. cbn [drop].
        apply H. cbn in Hi. lia.
      * intros H i Hi. specialize (H (S i)).
        replace (pos + S i) with (S pos + i) in H by lia. apply H. cbn. lia.
Qed.

Lemma search_from_Some r pos s m :
  search_from r pos s = Some m ↔
  ∃ i, i ≤ length s ∧ run r (pos + i) (drop i s) None accept = Some m ∧
       ∀ j, j < i -> run r (pos + j) (drop j s) None accept = None.
Proof.
  revert pos. induction s as [|c s IH]; intros pos; cbn [search_from].
  - destruct (run r pos [] None accept) eqn:Hr.
    + split.
      * intros [= <-]. exists 0. rewrite Nat.add_0_r.
        split; [done|]. split; [done|]. intros j Hj. lia.
      * intros (i & Hi & Hrun & _). cbn in Hi. replace i with 0 in Hrun by lia.
        rewrite Nat.add_0_r in Hrun. cbn in Hrun. congruence.
    + split; [done|]. intros (i & Hi & Hrun & _). cbn in Hi.
      replace i with 0 in Hrun by lia.
      rewrite Nat.add_0_r in Hrun. cbn in Hrun. congruence.
  - destruct (run r pos (c :: s) None accept) eqn:Hr.
    + split.
      * intros [= <-]. exists 0. rewrite Nat.add_0_r.
        split; [cbn; lia|]. split; [done|]. intros j Hj. lia.
      * intros (i & Hi & Hrun & Hearlier). destruct i as [|i].
        -- rewrite Nat.add_0_r in Hrun. cbn in Hrun. congruence.
        -- specialize (Hearlier 0). rewrite Nat.add_0_r in Hearlier.
           cbn in Hearlier. rewrite Hearlier in Hr; [done|lia].
    + rewrite IH. split.
      * intros (i & Hi & Hrun & Hearlier). exists (S i).
        replace (pos + S i) with (S pos + i) by lia.
        repeat split; [cbn; lia|done|].
        intros [|j] Hj; [by rewrite Nat.add_0_r|].
        replace (pos + S j) with (S pos + j) by lia. apply Hearlier. lia.
      * intros (i & Hi & Hrun & Hearlier). destruct i as [|i].
        -- rewrite Nat.add_0_r in Hrun. cbn in Hrun. congruence.
        -- exists i. replace (pos + S i) with (S pos + i) in Hrun by lia.
           repeat split; [cbn in Hi; lia|done|].
           intros j Hj. specialize (Hearlier (S j)).
           replace (pos + S j) with (S pos + j) in Hearlier by lia.
           apply Hearlier. lia.
Qed.

(** ** The three patterns, offset by offset *)

Lemma star_pos_irrelevant {A} p pos pos' s (k : nat -> str -> option A) f :
  (∀ n t, k n t = f t) -> star p pos s k = star p pos' s (fun _ t => f t).
Proof.
  intros Hk. revert pos pos'.
  induction s as [|c s IH]; intros pos pos'; cbn; rewrite Hk; [done|].
  destruct (p c); [|done]. by rewrite (IH (S pos) (S pos')).
Qed.

Lemma run_group_id {A} pos s g (k : nat -> str -> option str -> option A) :
  run (Group (Rep (CharSet id_char) 11)) pos s g k =
  if all_n id_char 11 s then k (pos + 11) (drop 11 s) (Some (take 11 s)) else None.
Proof.
  cbn [run].
  change (run (Rep (CharSet id_char) 11) pos s g
            (fun pos' s' _ => k pos' s' (Some (take (pos' - pos) s))) = 
          if all_n id_char 11 s then k (pos + 11) (drop 11 s) (Some (take 11 s)) else None).
  rewrite run_rep_set. destruct (all_n id_char 11 s); [|done].
  by replace (pos + 11 - pos) with 11 by lia.
Qed.

Lemma run_lit_id pos m s g :
  run (Cat (Lit m) (Group (Rep (CharSet id_char) 11))) pos s g accept = id_after m s.
Proof.
  unfold id_after.
  change (match strip m s with
          | Some s' => run (Group (Rep (CharSet id_char) 11)) (pos + length m) s' g accept
          | None => None
          end = match strip m s with
                | Some t' => if all_n id_char 11 t' then Some (Some (take 11 t')) else None
                | None => None
                end).
  destruct (strip m s) as [s'|]; [|done]. by rewrite run_group_id.
Qed.

Lemma run_cat_alt {A} r1 r2 r pos s g (k : nat -> str -> option str -> option A) :
  run (Cat (Alt r1 r2) r) pos s g k =
  match run (Cat r1 r) pos s g k with
  | Some a => Some a
  | None => run (Cat r2 r) pos s g k
  end.
Proof. reflexivity. Qed.

Lemma run_url_re pos t : run url_re pos t None accept = url_at t.
Proof.
  unfold url_re, url_at. rewrite !run_cat_alt. by rewrite !run_lit_id.
Qed.

Lemma run_query_re pos t : run query_re pos t None accept = query_at t.
Proof.
  unfold query_re, query_at.
  set (T := Cat (Lit (py "v=")) (Group (Rep (CharSet id_char) 11))).
  change (match strip (py "youtube.com/") t with
          | Some t' =>
              star dot (pos + length (py "youtube.com/")) t'
                (fun pos' s' => run (Cat (CharSet query_sep) T) pos' s' None accept)
          | None => None
          end = match strip (py "youtube.com/") t with
                | Some t' => star dot 0 t' (fun _ s' => param_at s')
                | None => None
                end).
  destruct (strip _ t) as [t'|]; [|done].
  apply star_pos_irrelevant. intros n s. unfold param_at.
  destruct s as [|q s]; [done|].
  change (run (Cat (CharSet query_sep) T) n (q :: s) None accept)
    with (if query_sep q then run T (S n) s None accept else None).
  destruct (query_sep q); [|done]. apply run_lit_id.
Qed.

(** An id after a literal prefix, declaratively. *)
Lemma id_after_Some m t r :
  id_after m t = Some r ↔ ∃ id rest, t = m ++ id ++ rest ∧ is_id id ∧ r = Some id.
Proof.
  unfold id_after. split.
  - destruct (strip m t) as [t'|] eqn:Hs; [|done].
    apply strip_Some in Hs as ->.
    destruct (all_n id_char 11 t') eqn:Hall; [|done]. intros [= <-].
    apply all_n_split in Hall as (Ht' & Hlen & Hid).
    exists (take 11 t'), (drop 11 t'). by rewrite <- Ht'.
  - intros (id & rest & -> & [Hlen Hid] & ->). rewrite strip_app.
    rewrite all_n_app by done. by rewrite <- Hlen, take_app_length.
Qed.

Lemma id_after_None m t :
  id_after m t = None ↔ ∀ id rest, t = m ++ id ++ rest -> ¬ is_id id.
Proof.
  split.
  - intros Hn id rest Ht Hid.
    assert (id_after m t = Some (Some id)) as H; [|congruence].
    apply id_after_Some. by exists id, rest.
  - intros H. destruct (id_after m t) as [r|] eqn:Hr; [|done].
    apply id_after_Some in Hr as (id & rest & Ht & Hid & _).
    by destruct (H id rest).
Qed.

Lemma url_at_Some t r :
  url_at t = Some r ↔ ∃ id, r = Some id ∧ url_match t id.
Proof.
  unfold url_at, url_match, markers. split.
  - intros H.
    repeat match type of H with
    | match id_after ?m t with _ => _ end = _ =>
        let E := fresh "E" in destruct (id_after m t) eqn:E
    end; simplify_eq;
    match goal with
    | E : id_after ?m t = Some _ |- _ =>
        apply id_after_Some in E as (id & rest & -> & Hid & ->);
        exists id; split; [done|]; exists m, rest;
        split; [repeat constructor|done]
    end.
  - intros (id & -> & m & rest & Hm & -> & Hid).
    assert (∀ m', id_after m' (m' ++ id ++ rest) = Some (Some id)) as Hhit.
    { intros m'. apply id_after_Some. by exists id, rest. }
    rewrite !elem_of_cons in Hm.
    destruct Hm as [->|[->|[->|Hm]]]; [| | |by apply elem_of_nil in Hm].
    + by rewrite Hhit.
    + replace (id_after (py "youtube.com/watch?v=") (py "youtu.be/" ++ id ++ rest))
        with (@None match_obj) by done.
      by rewrite Hhit.
    + replace (id_after (py "youtube.com/watch?v=") (py "youtube.com/embed/" ++ id ++ rest))
        with (@None match_obj) by done.
      replace (id_after (py "youtu.be/") (py "youtube.com/embed/" ++ id ++ rest))
        with (@None match_obj) by done.
      by rewrite Hhit.
Qed.

Lemma url_at_None t : url_at t = None ↔ ∀ id, ¬ url_match t id.
Proof.
  split.
  - intros Hn id Hm. assert (url_at t = Some (Some id)) as H; [|congruence].
    apply url_at_Some. by exists id.
  - intros H. destruct (url_at t) as [r|] eqn:Hr; [|done].
    apply url_at_Some in Hr as (id & _ & Hm). by destruct (H id).
Qed.

Lemma forallb_dot l : forallb dot l = true ↔ 10%N ∉ l.
Proof.
  induction l as [|c l IH]; cbn.
  - split; [intros _ H; by apply elem_of_nil in H|done].
  - rewrite andb_true_iff, IH, not_elem_of_cons. unfold dot.
    rewrite negb_true_iff, N.eqb_neq.
    split; (intros [? ?]; split; [congruence|done]).
Qed.

Lemma query_sep_true q : query_sep q = true ↔ q = 63%N ∨ q = 38%N.
Proof. unfold query_sep. rewrite orb_true_iff, !N.eqb_eq. tauto. Qed.

Lemma param_at_Some s r :
  param_at s = Some r ↔
  ∃ q id rest, s = q :: py "v=" ++ id ++ rest ∧ (q = 63%N ∨ q = 38%N) ∧
               is_id id ∧ r = Some id.
Proof.
  unfold param_at. split.
  - destruct s as [|q s]; [done|]. destruct (query_sep q) eqn:Hq; [|done].
    intros (id & rest & -> & Hid & ->)%id_after_Some.
    exists q, id, rest. by rewrite <- query_sep_true.
  - intros (q & id & rest & -> & Hq & Hid & ->).
    apply query_sep_true in Hq as ->. apply id_after_Some. by exists id, rest.
Qed.

(** [query_match] in terms of what the matcher looks at. *)
Lemma query_match_iff t n id :
  query_match t n id ↔
  ∃ t', strip (py "youtube.com/") t = Some t' ∧ n ≤ length t' ∧
        forallb dot (take n t') = true ∧ param_at (drop n t') = Some (Some id).
Proof.
  unfold query_match. split.
  - intros (mid & q & rest & -> & <- & Hnl & Hq & Hid).
    exists (mid ++ q :: py "v=" ++ id ++ rest). rewrite strip_app.
    rewrite take_app_length, drop_app_length, length_app.
    repeat split; [lia|by apply forallb_dot|].
    apply param_at_Some. by exists q, id, rest.
  - intros (t' & ->%strip_Some & Hn & Hnl & Hp).
    apply param_at_Some in Hp as (q & id' & rest & Hdrop & Hq & Hid & [= <-]).
    exists (take n t'), q, rest. rewrite <- Hdrop, take_drop.
    repeat split; [rewrite length_take; lia|by apply forallb_dot|done|apply Hid|apply Hid].
Qed.

Lemma query_at_None t : query_at t = None ↔ ∀ n id, ¬ query_match t n id.
Proof.
  unfold query_at. split.
  - intros Hq n id (t' & Hs & Hn & Hnl & Hp)%query_match_iff.
    rewrite Hs in Hq. rewrite star_None in Hq.
    specialize (Hq n Hn Hnl). cbn in Hq. congruence.
  - intros H. destruct (strip _ t) as [t'|] eqn:Hs; [|done].
    apply star_None. intros j Hj Hnl. cbn.
    destruct (param_at (drop j t')) as [[id|]|] eqn:Hp; [| |done].
    + destruct (H j id). apply query_match_iff. by exists t'.
    + apply param_at_Some in Hp as (? & ? & ? & _ & _ & _ & [=]).
Qed.

Lemma query_at_Some t r :
  query_at t = Some r ↔
  ∃ n id, r = Some id ∧ query_match t n id ∧
          ∀ n' id', n < n' -> ¬ query_match t n' id'.
Proof.
  unfold query_at. split.
  - destruct (strip _ t) as [t'|] eqn:Hs; [|done].
    intros (j & Hj & Hnl & Hp & Hlater)%star_Some. cbn in Hp.
    pose proof Hp as (q & id & rest & _ & _ & _ & ->)%param_at_Some.
    exists j, id. split; [done|]. split.
    + apply query_match_iff. by exists t'.
    + intros n' id' Hn' (t'' & Hs' & Hlen & Hnl' & Hp')%query_match_iff.
      assert (t'' = t') as -> by congruence.
      specialize (Hlater n' Hn' Hlen Hnl'). cbn in Hlater. congruence.
  - intros (n & id & -> & (t' & Hs & Hn & Hnl & Hp)%query_match_iff & Hlast).
    rewrite Hs. apply star_Some. exists n. repeat split; try done.
    intros j' Hj' Hlen Hnl'. cbn.
    destruct (param_at (drop j' t')) as [r|] eqn:Hp'; [|done].
    pose proof Hp' as (q & id' & rest & _ & _ & _ & ->)%param_at_Some.
    destruct (Hlast j' id' Hj'). apply query_match_iff. by exists t'.
Qed.

(** ** Where a pattern matches in the whole input *)

Lemma site_drop (P : str -> Prop) s i :
  (∃ pre t, s = pre ++ t ∧ length pre = i ∧ P t) ↔ i ≤ length s ∧ P (drop i s).
Proof.
  split.
  - intros (pre & t & -> & <- & HP). rewrite drop_app_length, length_app.
    split; [lia|done].
  - intros [Hi HP]. exists (take i s), (drop i s).
    rewrite take_drop, length_take. repeat split; [lia|done].
Qed.

Lemma re_search_url_Some s r :
  re_search url_re s = Some r ↔
  ∃ i id, r = Some id ∧ url_site s i id ∧ ∀ j id', j < i -> ¬ url_site s j id'.
Proof.
  unfold re_search. rewrite search_from_Some. split.
  - intros (i & Hi & Hrun & Hearlier). rewrite run_url_re in Hrun.
    apply url_at_Some in Hrun as (id & -> & Hm). exists i, id.
    split; [done|]. split; [by apply (site_drop (fun t => url_match t id))|].
    intros j id' Hj [_ Hm']%(site_drop (fun t => url_match t id')).
    specialize (Hearlier j Hj). rewrite run_url_re in Hearlier.
    rewrite url_at_None in Hearlier. by destruct (Hearlier id').
  - intros (i & id & -> & [Hi Hm]%(site_drop (fun t => url_match t id)) & Hearlier).
    exists i. split; [done|]. split.
    + rewrite run_url_re. apply url_at_Some. by exists id.
    + intros j Hj. rewrite run_url_re. apply url_at_None. intros id' Hm'.
      destruct (Hearlier j id' Hj).
      apply (site_drop (fun t => url_match t id')). split; [lia|done].
Qed.

Lemma re_search_url_None s :
  re_search url_re s = None ↔ ∀ i id, ¬ url_site s i id.
Proof.
  unfold re_search. rewrite search_from_None. split.
  - intros H i id [Hi Hm]%(site_drop (fun t => url_match t id)).
    specialize (H i Hi). rewrite run_url_re, url_at_None in H. by destruct (H id).
  - intros H i Hi. rewrite run_url_re. apply url_at_None. intros id Hm.
    destruct (H i id). by apply (site_drop (fun t => url_match t id)).
Qed.

Lemma re_search_query_Some s r :
  re_search query_re s = Some r ↔
  ∃ i n id, r = Some id ∧ query_site s i n id ∧
    (∀ j n' id', j < i -> ¬ query_site s j n' id') ∧
    (∀ n' id', n < n' -> ¬ query_site s i n' id').
Proof.
  unfold re_search. rewrite search_from_Some. split.
  - intros (i & Hi & Hrun & Hearlier). rewrite run_query_re in Hrun.
    apply query_at_Some in Hrun as (n & id & -> & Hm & Hlast). exists i, n, id.
    split; [done|]. split; [by apply (site_drop (fun t => query_match t n id))|].
    split.
    + intros j n' id' Hj [_ Hm']%(site_drop (fun t => query_match t n' id')).
      specialize (Hearlier j Hj). rewrite run_query_re in Hearlier.
      rewrite query_at_None in Hearlier. by destruct (Hearlier n' id').
    + intros n' id' Hn' [_ Hm']%(site_drop (fun t => query_match t n' id')).
      by destruct (Hlast n' id' Hn').
  - intros (i & n & id & -> & [Hi Hm]%(site_drop (fun t => query_match t n id))
            & Hearlier & Hlast).
    exists i. split; [done|]. split.
    + rewrite run_query_re. apply query_at_Some. exists n, id.
      split; [done|]. split; [done|]. intros n' id' Hn' Hm'.
      destruct (Hlast n' id' Hn').
      by apply (site_drop (fun t => query_match t n' id')).
    + intros j Hj. rewrite run_query_re. apply query_at_None. intros n' id' Hm'.
      destruct (Hearlier j n' id' Hj).
      apply (site_drop (fun t => query_match t n' id')). split; [lia|done].
Qed.

Lemma re_search_query_None s :
  re_search query_re s = None ↔ ∀ i n id, ¬ query_site s i n id.
Proof.
  unfold re_search. rewrite search_from_None. split.
  - intros H i n id [Hi Hm]%(site_drop (fun t => query_match t n id)).
    specialize (H i Hi). rewrite run_query_re, query_at_None in H.
    by destruct (H n id).
  - intros H i Hi. rewrite run_query_re. apply query_at_None. intros n id Hm.
    destruct (H i n id). by apply (site_drop (fun t => query_match t n id)).
Qed.

(** ** The resolver *)

Lemma length_py s : length (py s) = String.length s.
Proof. induction s as [|a s IH]; [done|]. unfold py; fold py. cbn. by rewrite IH. Qed.

Lemma re_match_bare_id s :
  length s = 11 ->
  is_Some (re_match bare_id_re s) ↔ Forall (fun c => id_char c = true) s.
Proof.
  intros Hlen. unfold re_match, bare_id_re.
  change (run (Cat Bol (Cat (Rep (CharSet id_char) 11) Eol)) 0 s None accept)
    with (run (Rep (CharSet id_char) 11) 0 s None
            (fun pos' s' g' => run Eol pos' s' g' accept)).
  rewrite run_rep_set.
  assert (drop 11 s = []) as -> by (apply drop_ge; lia).
  destruct (all_n id_char 11 s) eqn:Hall.
  - split; [|by eexists]. intros _.
    apply all_n_split in Hall as (_ & _ & Hall).
    by rewrite take_ge in Hall by lia.
  - split; [by intros [? ?]|]. intros HF.
    rewrite <- (app_nil_r s), all_n_app in Hall; done.
Qed.

Lemma fast_path_iff s :
  (length s =? 11)%nat && bool_decide (is_Some (re_match bare_id_re s)) = true
  ↔ is_id s.
Proof.
  unfold is_id. rewrite andb_true_iff, Nat.eqb_eq, bool_decide_eq_true.
  split; intros [Hlen H]; (split; [done|]); by apply re_match_bare_id.
Qed.

Lemma url_site_not_bare s i id : url_site s i id -> ¬ is_id s.
Proof.
  intros (pre & t & -> & _ & m & rest & Hm & -> & [Hid _]) [Hlen _].
  rewrite !length_app, Hid in Hlen.
  unfold markers in Hm. rewrite !elem_of_cons in Hm.
  destruct Hm as [->|[->|[->|Hm]]]; [| | |by apply elem_of_nil in Hm];
    rewrite length_py in Hlen; cbn in Hlen; lia.
Qed.

Lemma query_site_not_bare s i n id : query_site s i n id -> ¬ is_id s.
Proof.
  intros (pre & t & -> & _ & mid & q & rest & -> & _ & _ & _ & [Hid _]) [Hlen _].
  rewrite !length_app in Hlen. cbn [length] in Hlen.
  rewrite !length_app, Hid in Hlen. lia.
Qed.

(** The leftmost match of the first URL pattern decides the result. *)
Lemma extract_first_url_site s i id :
  url_site s i id -> (∀ j id', j < i -> ¬ url_site s j id') ->
  extract_video_id s = Some id.
Proof.
  intros Hsite Hfirst. unfold extract_video_id.
  destruct (_ && _) eqn:Hfast.
  - apply fast_path_iff in Hfast. by destruct (url_site_not_bare _ _ _ Hsite).
  - cbn. assert (re_search url_re s = Some (Some id)) as ->; [|done].
    apply re_search_url_Some. by exists i, id.
Qed.

(** Without a match of the first pattern, the second one decides: its
    leftmost start, and from there the last parameter of the line. *)
Lemma extract_first_query_site s i n id :
  (∀ j id', ¬ url_site s j id') ->
  query_site s i n id ->
  (∀ j n' id', j < i -> ¬ query_site s j n' id') ->
  (∀ n' id', n < n' -> ¬ query_site s i n' id') ->
  extract_video_id s = Some id.
Proof.
  intros Hno Hsite Hfirst Hlast. unfold extract_video_id.
  destruct (_ && _) eqn:Hfast.
  - apply fast_path_iff in Hfast. by destruct (query_site_not_bare _ _ _ _ Hsite).
  - cbn. apply re_search_url_None in Hno as ->.
    assert (re_search query_re s = Some (Some id)) as ->; [|done].
    apply re_search_query_Some. by exists i, n, id.
Qed.

(** Whatever the resolver returns is a canonical id. *)
Lemma extract_video_id_is_id s id : extract_video_id s = Some id -> is_id id.
Proof.
  unfold extract_video_id. destruct (_ && _) eqn:Hfast.
  - apply fast_path_iff in Hfast. by intros [= <-].
  - cbn. destruct (re_search url_re s) as [r|] eqn:Hu.
    + apply re_search_url_Some in Hu as (i & id' & -> & Hsite & _).
      intros [= <-]. by destruct Hsite as (? & ? & _ & _ & ? & ? & _ & _ & ?).
    + destruct (re_search query_re s) as [r|] eqn:Hq; [|done].
      apply re_search_query_Some in Hq as (i & n & id' & -> & Hsite & _).
      intros [= <-].
      by destruct Hsite as (? & ? & _ & _ & ? & ? & ? & _ & _ & _ & _ & ?).
Qed.

Lemma extract_video_id_None s :
  extract_video_id s = None ↔
  ¬ is_id s ∧ (∀ i id, ¬ url_site s i id) ∧ (∀ i n id, ¬ query_site s i n id).
Proof.
  unfold extract_video_id. destruct (_ && _) eqn:Hfast.
  - apply fast_path_iff in Hfast. split; [done|]. by intros [? _].
  - assert (¬ is_id s) as Hbare.
    { intros H%fast_path_iff. congruence. }
    cbn. destruct (re_search url_re s) as [r|] eqn:Hu.
    + apply re_search_url_Some in Hu as (i & id & -> & Hsite & _).
      split; [done|]. intros (_ & H & _). by destruct (H i id).
    + rewrite re_search_url_None in Hu.
      destruct (re_search query_re s) as [r|] eqn:Hq.
      * apply re_search_query_Some in Hq as (i & n & id & -> & Hsite & _).
        split; [done|]. intros (_ & _ & H). by destruct (H i n id).
      * rewrite re_search_query_None in Hq. done.
Qed.

(** Every character of a literal is an allowed one. *)
Ltac all_id_chars :=
  repeat (apply Forall_cons; split; [reflexivity|]); apply Forall_nil_2.

(** C3.  Every string of exactly 11 characters, all of them in
    [[a-zA-Z0-9_-]], is returned unchanged by [extract_video_id]. *)
Theorem extract_video_id_bare_id (s : str) :
  length s = 11 ->
  Forall (fun c => id_char c = true) s ->
  extract_video_id s = Some s.
Proof.
  intros Hlen Hall. unfold extract_video_id.
  assert (is_id s) as Hid%fast_path_iff by done. by rewrite Hid.
Qed.

Lemma extract_video_id_bare_id_witness :
  extract_video_id (py "dQw4w9WgXcQ") = Some (py "dQw4w9WgXcQ").
Proof.
  apply extract_video_id_bare_id; [reflexivity|all_id_chars].
Defined.

(** C4.  An input that is not itself a bare 11-character id, in which none of
    [youtube.com/watch?v=], [youtu.be/], [youtube.com/embed/] is followed by
    11 allowed characters, and in which no [youtube.com/] is followed on the
    same line by a [?v=] or [&v=] with 11 allowed characters, resolves to
    [None]: the resolver is total and reports the absence as a value. *)
Theorem extract_video_id_not_found (s : str) :
  ¬ is_id s ->
  (∀ i id, ¬ url_site s i id) ->
  (∀ i n id, ¬ query_site s i n id) ->
  extract_video_id s = None.
Proof.
  intros Hbare Hurl Hquery. unfold extract_video_id.
  destruct (_ && _) eqn:Hfast.
  - apply fast_path_iff in Hfast. by destruct Hbare.
  - cbn [first_capture patterns].
    apply re_search_url_None in Hurl as ->.
    by apply re_search_query_None in Hquery as ->.
Qed.

Lemma extract_video_id_not_found_witness :
  extract_video_id (py "not-a-valid-id-or-url") = None.
Proof.
  apply extract_video_id_not_found.
  - intros [Hlen _]. vm_compute in Hlen. discriminate Hlen.
  - apply re_search_url_None. vm_compute. reflexivity.
  - apply re_search_query_None. vm_compute. reflexivity.
Defined.

(** ** Ids that run on past 11 characters *)

Lemma id_run_prefix run :
  id_run run -> ∃ rest, run = take 11 run ++ rest ∧ is_id (take 11 run).
Proof.
  intros [Hlen Hall]. exists (drop 11 run). rewrite take_drop. split; [done|].
  split; [rewrite length_take; lia|]. by apply Forall_take.
Qed.

Lemma overlong_url_site pre m run post :
  m ∈ markers -> id_run run ->
  url_site (pre ++ m ++ run ++ post) (length pre) (take 11 run).
Proof.
  intros Hm (rest & Hrun & Hid)%id_run_prefix.
  exists pre, (m ++ run ++ post). split; [done|]. split; [done|].
  exists m, (rest ++ post). split; [done|]. split; [|done].
  by rewrite (app_assoc (take 11 run)), <- Hrun.
Qed.

Lemma overlong_query_site pre mid q run post :
  10%N ∉ mid -> q = 63%N ∨ q = 38%N -> id_run run ->
  query_site (pre ++ py "youtube.com/" ++ mid ++ q :: py "v=" ++ run ++ post)
    (length pre) (length mid) (take 11 run).
Proof.
  intros Hnl Hq (rest & Hrun & Hid)%id_run_prefix.
  eexists pre, _. split; [done|]. split; [done|].
  exists mid, q, (rest ++ post). split; [|done].
  by rewrite (app_assoc (take 11 run)), <- Hrun.
Qed.

(** C10, as the code has it.  When a supported URL segment begins with more
    than 11 allowed characters, the resolver never signals [None]; and when
    that segment is the one the pattern search selects, the id is the first
    11 characters of the run. *)
Theorem extract_video_id_overlong (s run : str) :
  id_run run ->
  (selected_segment s run -> extract_video_id s = Some (take 11 run)) ∧
  (overlong_segment s run -> ∃ id, extract_video_id s = Some id ∧ is_id id).
Proof.
  intros Hrun. split.
  - intros [pre m post Hm -> Hfirst | pre mid q post Hnl Hq -> Hno Hfirst Hlast].
    + eapply extract_first_url_site; [by apply overlong_url_site|].
      intros j id'. apply Hfirst.
    + eapply extract_first_query_site; [done|by apply overlong_query_site|..].
      * intros j n' id'. apply Hfirst.
      * intros n' id'. apply Hlast.
  - intros Hseg.
    destruct (extract_video_id s) as [id|] eqn:He.
    { exists id. split; [done|]. by apply extract_video_id_is_id in He. }
    apply extract_video_id_None in He as (_ & Hno_url & Hno_query).
    destruct Hseg as (pre & post & [(m & Hm & ->) | (mid & q & Hnl & Hq & ->)]).
    + by destruct (Hno_url _ _ (overlong_url_site pre m run post Hm Hrun)).
    + by destruct (Hno_query _ _ _ (overlong_query_site pre mid q run post Hnl Hq Hrun)).
Qed.

(** ** The formatter *)

Lemma undigits_digits d : undigits (digits d) = Some d.
Proof. induction d; cbn; rewrite ?IHd; reflexivity. Qed.

Lemma decode_digits n : decode (digits (N.to_uint n)) = Some n.
Proof.
  unfold decode. rewrite undigits_digits. cbn. f_equal.
  apply DecimalN.Unsigned.of_to.
Qed.

Lemma two_digits_decode n : decode (two_digits n) = Some n.
Proof.
  unfold two_digits. destruct (n <? 10)%N; [|apply decode_digits].
  pose proof (decode_digits n) as H. unfold decode in *. cbn.
  destruct (undigits (digits (N.to_uint n))); [|done]. exact H.
Qed.

Lemma digits_length_small n : (n < 10)%N -> length (digits (N.to_uint n)) = 1.
Proof.
  intros H.
  assert (n = 0%N ∨ n = 1%N ∨ n = 2%N ∨ n = 3%N ∨ n = 4%N ∨ n = 5%N
          ∨ n = 6%N ∨ n = 7%N ∨ n = 8%N ∨ n = 9%N) as Hn by lia.
  repeat (destruct Hn as [->|Hn]; [reflexivity|]). by subst.
Qed.

Lemma digits_length_large n : (10 <= n)%N -> 2 ≤ length (digits (N.to_uint n)).
Proof.
  intros H. pose proof (DecimalN.Unsigned.of_to n) as Hn.
  destruct (N.to_uint n) as [|d|d|d|d|d|d|d|d|d|d];
    try (destruct d; [cbn in Hn; lia|cbn; lia..]).
  cbn in Hn. lia.
Qed.

Lemma two_digits_length n : 2 ≤ length (two_digits n).
Proof.
  unfold two_digits. destruct (N.ltb_spec n 10).
  - cbn. rewrite digits_length_small by done. lia.
  - by apply digits_length_large.
Qed.

(** On a count that is not negative, [:02d] is the spec's rendering. *)
Lemma format_02d_nonneg z : (0 <= z)%Z -> format_02d z = two_digits (Z.to_N z).
Proof.
  intros Hz. unfold format_02d, two_digits.
  assert ((z <? 0)%Z = false) as -> by lia.
  assert (Z.abs_N z = Z.to_N z) as -> by lia.
  cbn [app length]. destruct (N.ltb_spec (Z.to_N z) 10).
  - by rewrite digits_length_small.
  - pose proof (digits_length_large (Z.to_N z)).
    by replace (2 - 0 - length (digits (N.to_uint (Z.to_N z)))) with 0 by lia.
Qed.

Lemma Qfloor_div_60 (x : Q) : Qfloor (x / 60) = (Qfloor x / 60)%Z.
Proof.
  destruct x as [a b]. unfold Qfloor, Qdiv, Qmult, Qinv. cbn.
  rewrite Z.mul_1_r, Pos2Z.inj_mul, Z.div_div; lia.
Qed.

Lemma Qfloor_minus_60 (x : Q) (k : Z) :
  Qfloor (x - 60 * inject_Z k) = (Qfloor x - 60 * k)%Z.
Proof.
  destruct x as [a b].
  unfold Qfloor, Qminus, Qplus, Qopp, Qmult, inject_Z. cbn [Qnum Qden].
  rewrite !Pos.mul_1_r, !Z.mul_1_r.
  replace (a + - (60 * k) * Z.pos b)%Z with (a + (- (60 * k)) * Z.pos b)%Z by lia.
  rewrite Z.div_add by lia. lia.
Qed.

Lemma int_of_nonneg (x : Q) : (0 <= x)%Q -> int_of x = Qfloor x.
Proof.
  intros H. unfold int_of. by apply Qle_bool_iff in H as ->.
Qed.

Lemma Qfloor_nonneg (x : Q) : (0 <= x)%Q -> (0 <= Qfloor x)%Z.
Proof. intros H. apply (Qfloor_resp_le 0 x H). Qed.

(** Minutes and seconds of an offset that is not negative, in exact
    arithmetic. *)
Lemma minutes_seconds (x : Q) :
  (0 <= x)%Q ->
  int_of (floordiv x 60) = (Qfloor x / 60)%Z ∧
  int_of (pymod x 60) = (Qfloor x mod 60)%Z.
Proof.
  intros Hx. pose proof (Qfloor_nonneg x Hx) as Hf.
  unfold floordiv, pymod. rewrite Qfloor_div_60. split.
  - rewrite int_of_nonneg, Qfloor_Z; [done|].
    change 0%Q with (inject_Z 0). rewrite <- Zle_Qle.
    apply Z.div_pos; lia.
  - pose proof (Qfloor_minus_60 x (Qfloor x / 60)) as Hm.
    assert (Qfloor x - 60 * (Qfloor x / 60) = Qfloor x mod 60)%Z as Hmod.
    { rewrite Z.mod_eq; lia. }
    rewrite int_of_nonneg; [lia|].
    pose proof (Qfloor_le x) as Hle.
    assert (60 * inject_Z (Qfloor x / 60) <= inject_Z (Qfloor x))%Q as Hk.
    { change 60%Q with (inject_Z 60). rewrite <- inject_Z_mult, <- Zle_Qle.
      pose proof (Z.mod_pos_bound (Qfloor x) 60). lia. }
    apply (Qplus_le_l _ _ (60 * inject_Z (Qfloor x / 60))%Q).
    ring_simplify. by apply (Qle_trans _ _ _ Hk).
Qed.

Lemma format_transcript_map l : format_transcript l = map format_entry l.
Proof.
  unfold format_transcript.
  assert (∀ acc, fold_left (fun a e => a ++ [format_entry e]) l acc
                 = acc ++ map format_entry l) as H; [|apply H].
  induction l as [|e l IH]; intros acc; cbn.
  - by rewrite app_nil_r.
  - by rewrite IH, <- app_assoc.
Qed.

(** C5, within the range of exact arithmetic.  For a segment whose start
    offset is not negative and below 2^53, [formatted_time] is the minute
    count [floor(start / 60)], a colon, and the second count
    [floor(start mod 60)]; the two counts split the whole seconds of the
    offset with the seconds below 60 and the minutes not reduced (no hour
    rollover); each is rendered in decimal, at least two characters wide, and
    reads back as the count itself (nothing is cut off). *)
Theorem format_transcript_time (l : list entry) (i : nat) (e : entry) :
  l !! i = Some e ->
  (0 <= start e)%Q ->
  (start e < inject_Z (2 ^ 53))%Q ->
  let minutes := Qfloor (start e / 60) in
  let seconds := Qfloor (start e - 60 * inject_Z minutes) in
  formatted_time <$> format_transcript l !! i =
    Some (two_digits (Z.to_N minutes) ++ py ":" ++ two_digits (Z.to_N seconds)) ∧
  (0 ≤ minutes)%Z ∧ (0 ≤ seconds < 60)%Z ∧
  (60 * minutes + seconds = Qfloor (start e))%Z ∧
  2 ≤ length (two_digits (Z.to_N minutes)) ∧
  2 ≤ length (two_digits (Z.to_N seconds)) ∧
  Z.of_N <$> decode (two_digits (Z.to_N minutes)) = Some minutes ∧
  Z.of_N <$> decode (two_digits (Z.to_N seconds)) = Some seconds.
Proof.
  intros Hi Hstart _ minutes seconds.
  pose proof (Qfloor_nonneg _ Hstart) as Hf.
  destruct (minutes_seconds _ Hstart) as [Hmin Hsec].
  assert (minutes = (Qfloor (start e) / 60)%Z) as Em by apply Qfloor_div_60.
  assert (seconds = (Qfloor (start e) mod 60)%Z) as Es.
  { unfold seconds. rewrite Qfloor_minus_60, Em, Z.mod_eq; lia. }
  pose proof (Z.mod_pos_bound (Qfloor (start e)) 60) as Hb.
  assert (0 ≤ minutes)%Z as Hm0 by (rewrite Em; apply Z.div_pos; lia).
  assert (0 ≤ seconds < 60)%Z as Hs0 by lia.
  split.
  { rewrite format_transcript_map, list_lookup_fmap, Hi. cbn. f_equal.
    unfold format_time. rewrite Hmin, Hsec, <- Em, <- Es.
    by rewrite !format_02d_nonneg by lia. }
  split; [done|]. split; [done|].
  split; [rewrite Em, Es; pose proof (Z.div_mod (Qfloor (start e)) 60); lia|].
  split; [apply two_digits_length|]. split; [apply two_digits_length|].
  rewrite !two_digits_decode. clearbody minutes seconds.
  split; cbn [fmap option_fmap option_map]; f_equal; lia.
Qed.

Lemma format_transcript_time_witness :
  formatted_time <$> format_transcript [Entry 0 (py "a")] !! 0 = Some (py "00:00") ∧
  formatted_time <$> format_transcript [Entry 0 (py "a"); Entry 65 (py "b")] !! 1
    = Some (py "01:05") ∧
  formatted_time <$> format_transcript [Entry 3661 (py "c")] !! 0 = Some (py "61:01").
Proof.
  split; [|split].
  - refine (proj1 (format_transcript_time [Entry 0 (py "a")] 0 (Entry 0 (py "a"))
                     _ _ _)); [reflexivity|discriminate|reflexivity].
  - refine (proj1 (format_transcript_time [Entry 0 (py "a"); Entry 65 (py "b")] 1
                     (Entry 65 (py "b")) _ _ _));
      [reflexivity|discriminate|reflexivity].
  - refine (proj1 (format_transcript_time [Entry 3661 (py "c")] 0
                     (Entry 3661 (py "c")) _ _ _));
      [reflexivity|discriminate|reflexivity].
Defined.

(** C5, as the claim has it, fails on a large float.  The float
    [144123675437210688.0] (2^57 and a little) is a finite offset that is not
    negative; its minute count [floor(start / 60)] is 2402061257286844, but
    [start // 60] subtracts the remainder 48 and divides with rounding, and
    the label shows 2402061257286843. *)
Lemma format_transcript_time_counterexample :
  let start := S754_finite false 4503864857412834 5 in
  let exact := (144123675437210688 # 1)%Q in
  Float64.value start = Some exact ∧
  (0 <= exact)%Q ∧
  Float64.format_time start = Some (py "2402061257286843:48") ∧
  two_digits (Z.to_N (Qfloor (exact / 60))) ++ py ":" ++
    two_digits (Z.to_N (Qfloor (exact - 60 * inject_Z (Qfloor (exact / 60)))))
    = py "2402061257286844:48" ∧
  Float64.format_time start ≠
    Some (two_digits (Z.to_N (Qfloor (exact / 60))) ++ py ":" ++
          two_digits (Z.to_N (Qfloor (exact - 60 * inject_Z (Qfloor (exact / 60)))))).
Proof.
  cbv zeta. split; [vm_compute; reflexivity|]. split; [discriminate|].
  split; [vm_compute; reflexivity|]. split; [vm_compute; reflexivity|].
  vm_compute. discriminate.
Qed.

(** On ordinary offsets the float computation and the exact one give the
    same label: on every quarter of a second of the first ten minutes, and
    on every whole second of the ten minutes before zero. *)
Lemma float_label_quarters (n : nat) :
  n < 2400 ->
  Float64.format_time (Float64.quarters (Z.of_nat n))
  = Some (format_time (Z.of_nat n # 4)).
Proof.
  intros Hn.
  assert (forallb (fun k => bool_decide
            (Float64.format_time (Float64.quarters (Z.of_nat k))
             = Some (format_time (Z.of_nat k # 4)))) (seq 0 2400) = true) as Hall
    by (vm_compute; reflexivity).
  rewrite forallb_forall in Hall.
  assert (In n (seq 0 2400)) as Hin by (apply in_seq; lia).
  apply Hall in Hin. cbv beta in Hin. by apply bool_decide_eq_true_1 in Hin.
Qed.

Lemma float_label_negative_seconds (n : nat) :
  n < 600 ->
  Float64.format_time (Float64.of_Z (- Z.of_nat n))
  = Some (format_time (inject_Z (- Z.of_nat n))).
Proof.
  intros Hn.
  assert (forallb (fun k => bool_decide
            (Float64.format_time (Float64.of_Z (- Z.of_nat k))
             = Some (format_time (inject_Z (- Z.of_nat k))))) (seq 0 600) = true)
    as Hall by (vm_compute; reflexivity).
  rewrite forallb_forall in Hall.
  assert (In n (seq 0 600)) as Hin by (apply in_seq; lia).
  apply Hall in Hin. cbv beta in Hin. by apply bool_decide_eq_true_1 in Hin.
Qed.

(** Where the two part ways: a float beyond 2^57, and negative floats that
    are not whole numbers. *)
Example float_label_1e22 :
  Float64.format_time (S754_finite false 4768371582031250 21)
  = Some (py "166666666666666655744:40").
Proof. vm_compute. reflexivity. Qed.

Example float_label_tiny_negative :
  Float64.format_time (S754_finite true 4503599627370496 (-112))
  = Some (py "-1:60").
Proof. vm_compute. reflexivity. Qed.

Example float_label_just_below_minus_one :
  Float64.format_time (S754_finite true 4503599627370497 (-52))
  = Some (py "-1:59").
Proof. vm_compute. reflexivity. Qed.

(** C6.  [format_transcript] keeps length and order: the output is as long
    as the input, and its i-th segment carries the i-th input segment's start
    as [time] and its text, unchanged. *)
Theorem format_transcript_preserves (l : list entry) :
  length (format_transcript l) = length l ∧
  map time (format_transcript l) = map start l ∧
  map ftext (format_transcript l) = map text l ∧
  ∀ i, format_transcript l !! i = format_entry <$> l !! i.
Proof.
  rewrite format_transcript_map. split; [apply length_map|].
  split; [|split].
  - rewrite map_map. by apply map_ext.
  - rewrite map_map. by apply map_ext.
  - intros i. apply list_lookup_fmap.
Qed.

(** ** The fetcher *)

Section FetcherFacts.
Context {W : Type} {Api : YouTubeTranscriptApi W}.
Implicit Types (st : state W) (video_id : str).

(** Whatever enumeration does, the handler ends with the same failure. *)
Lemma enumerate_and_fail_run {A} video_id e st :
  enumerate_and_fail (A := A) video_id e st =
  (Raise (no_transcript video_id e),
   State (environ st)
     (api_list_transcripts video_id (world st)).2
     (trace st ++ [ListTranscripts video_id])).
Proof.
  unfold enumerate_and_fail, try_except, bind, list_transcripts, raise, log.
  cbn. by destruct (api_list_transcripts video_id (world st)) as [[?|?] ?].
Qed.

Lemma direct_attempt_run video_id st :
  direct_attempt video_id st =
  match api_get_transcript video_id None (world st) with
  | (Ok transcript_list, w) =>
      (Ok (format_transcript transcript_list),
       State (environ st) w (trace st ++ [FetchTranscript video_id None]))
  | (Raise e, w) =>
      (Raise (no_transcript video_id e),
       State (environ st) (api_list_transcripts video_id w).2
         (trace st ++ [FetchTranscript video_id None; ListTranscripts video_id]))
  end.
Proof.
  unfold direct_attempt, try_except, bind, fetch, ret, log. cbn.
  destruct (api_get_transcript video_id None (world st)) as [[t|e] w]; [done|].
  rewrite enumerate_and_fail_run. cbn. by rewrite <- app_assoc.
Qed.

Lemma get_transcript_run video_id st :
  get_transcript video_id st =
  let st0 := log (Getenv (py "YOUTUBE_PROXY")) st in
  match environ st !! py "YOUTUBE_PROXY" with
  | Some (c :: p) =>
      let proxy := c :: p in
      let st1 := log (FetchTranscript video_id (Some (proxies_for proxy))) st0 in
      match api_get_transcript video_id (Some (proxies_for proxy)) (world st) with
      | (Ok transcript_list, w) =>
          (Ok (format_transcript transcript_list),
           State (environ st) w (trace st1))
      | (Raise e, w) =>
          direct_attempt video_id
            (State (environ st) w
               (trace st1 ++
                [Print (py "Proxy failed (" ++ proxy ++ py "): " ++ message e)]))
      end
  | _ => direct_attempt video_id st0
  end.
Proof.
  unfold get_transcript, bind, os_getenv, proxy_attempt. cbn.
  destruct (environ st !! py "YOUTUBE_PROXY") as [[|c p]|]; cbn; try done.
  unfold try_except, bind, fetch, ret, print, log. cbn.
  by destruct (api_get_transcript video_id (Some (proxies_for (c :: p)))
                (world st)) as [[t|e] w].
Qed.
End FetcherFacts.

Section FetcherClaims.
Context {W : Type} {Api : YouTubeTranscriptApi W}.
Implicit Types (st : state W) (video_id : str).

(** C2.  When a proxy is configured and the proxy attempt raises, the
    failure is printed and the direct attempt is made exactly once; the
    outcome is then that of the direct attempt alone.  When the direct
    attempt raises too, enumeration is attempted exactly once, as the last
    step before the final failure. *)
Theorem get_transcript_fallback video_id st c p e w :
  environ st !! py "YOUTUBE_PROXY" = Some (c :: p) ->
  api_get_transcript video_id (Some (proxies_for (c :: p))) (world st)
    = (Raise e, w) ->
  let '(r, st') := get_transcript video_id st in
  ∃ evs,
    trace st' = trace st ++ evs ∧
    count is_direct_fetch evs = 1 ∧
    FetchTranscript video_id None ∈ evs ∧
    Print (py "Proxy failed (" ++ (c :: p) ++ py "): " ++ message e) ∈ evs ∧
    match api_get_transcript video_id None w with
    | (Ok transcript_list, _) =>
        r = Ok (format_transcript transcript_list) ∧
        count is_enumeration evs = 0
    | (Raise e', _) =>
        r = Raise (no_transcript video_id e') ∧
        count is_enumeration evs = 1 ∧
        last evs = Some (ListTranscripts video_id)
    end.
Proof.
  intros Henv Hproxy. rewrite get_transcript_run, Henv. cbv beta iota zeta.
  rewrite Hproxy.
  rewrite direct_attempt_run. cbn [world trace environ log].
  destruct (api_get_transcript video_id None w) as [[t|e'] w'].
  - eexists. split; [by rewrite <- !app_assoc|].
    split; [done|]. split; [set_solver|]. split; [set_solver|done].
  - eexists. split; [by rewrite <- !app_assoc|].
    split; [done|]. split; [set_solver|]. split; [set_solver|done].
Qed.

(** C7.  Every call first reads [YOUTUBE_PROXY] from the environment.  If
    it is set and not empty, the next step is the one proxy attempt, whose
    [proxies] send both http and https through [http://<proxy>]; otherwise
    the next step is the direct attempt and no proxy attempt is made. *)
Theorem get_transcript_proxy_choice video_id st :
  let '(_, st') := get_transcript video_id st in
  ∃ evs,
    trace st' = trace st ++ Getenv (py "YOUTUBE_PROXY") :: evs ∧
    match environ st !! py "YOUTUBE_PROXY" with
    | Some (c :: p) =>
        let proxy := c :: p in
        ∃ rest,
          evs = FetchTranscript video_id (Some (proxies_for proxy)) :: rest ∧
          count is_proxy_fetch rest = 0 ∧
          proxies_for proxy !! py "http" = Some (py "http://" ++ proxy) ∧
          proxies_for proxy !! py "https" = Some (py "http://" ++ proxy)
    | _ =>
        ∃ rest,
          evs = FetchTranscript video_id None :: rest ∧
          count is_proxy_fetch evs = 0
    end.
Proof.
  rewrite get_transcript_run.
  destruct (environ st !! py "YOUTUBE_PROXY") as [[|c p]|] eqn:Henv.
  - rewrite direct_attempt_run. cbn [world trace environ log].
    destruct (api_get_transcript video_id None (world st)) as [[t|e] w];
      (eexists; split; [by rewrite <- !app_assoc|]); by eexists.
  - cbn zeta. cbn [world trace environ log].
    destruct (api_get_transcript video_id (Some _) (world st)) as [[t|e] w].
    + eexists. split; [by rewrite <- !app_assoc|]. eexists.
      split; [done|]. split; [done|]. unfold proxies_for.
      split; [by rewrite lookup_insert_eq|].
      rewrite lookup_insert_ne by done. by rewrite lookup_insert_eq.
    + rewrite direct_attempt_run. cbn [world trace environ log].
      destruct (api_get_transcript video_id None w) as [[t|e'] w'];
        (eexists; split; [by rewrite <- !app_assoc|]); eexists;
        (split; [done|]); (split; [done|]); unfold proxies_for;
        (split; [by rewrite lookup_insert_eq|]);
        rewrite lookup_insert_ne by done; by rewrite lookup_insert_eq.
  - rewrite direct_attempt_run. cbn [world trace environ log].
    destruct (api_get_transcript video_id None (world st)) as [[t|e] w];
      (eexists; split; [by rewrite <- !app_assoc|]); by eexists.
Qed.
End FetcherClaims.

(** ** The handlers *)

Section HandlerClaims.
Context {W : Type} {Api : YouTubeTranscriptApi W}.
Implicit Types (st : state W) (video_id : str).

(** C8.  [/watch] answers 400 when the [v] argument is missing or empty and
    when it does not resolve to an id; once it resolves, a failure of
    [get_transcript] is answered with 500 and the error page carries the
    failure's message.  The handler itself never raises. *)
Theorem watch_outcome (args : list (str * str)) st :
  match args_get args (py "v") with
  | None | Some [] => ∃ msg, watch args st = (Ok (ErrorPage msg, 400%Z), st)
  | Some (c :: p) =>
      match extract_video_id (c :: p) with
      | None => ∃ msg, watch args st = (Ok (ErrorPage msg, 400%Z), st)
      | Some video_id =>
          match get_transcript video_id st with
          | (Raise e, st') =>
              watch args st = (Ok (ErrorPage (message e), 500%Z), st')
          | (Ok transcript, st') =>
              ∃ proxy_used st'',
                watch args st =
                (Ok (TranscriptPage video_id transcript proxy_used, 200%Z), st'')
          end
      end
  end.
Proof.
  unfold watch.
  destruct (args_get args (py "v")) as [[|c p]|]; [by eexists| |by eexists].
  destruct (extract_video_id (c :: p)) as [video_id|] eqn:He; [|by eexists].
  pose proof (extract_video_id_is_id _ _ He) as [Hlen _].
  destruct video_id as [|d i]; [done|].
  unfold try_except, bind.
  destruct (get_transcript (d :: i) st) as [[t|e] st']; [|done].
  unfold os_getenv, ret. by eexists _, _.
Qed.

(** C9.  [/api/transcript/<video_id>] hands the path string to
    [get_transcript] as it is: every call to the transcript library made
    while the request is served names that very string, and at least one is
    made, whatever the string looks like.  The status is 200 or 500, never
    400; every failure gives [success: false], the message as [error], and
    500. *)
Theorem api_transcript_outcome video_id st :
  (∃ evs,
     trace (api_transcript video_id st).2 = trace st ++ evs ∧
     Forall (about video_id) evs ∧
     1 ≤ count is_direct_fetch evs + count is_proxy_fetch evs) ∧
  match get_transcript video_id st with
  | (Raise e, st') =>
      api_transcript video_id st =
      (Ok (JObj [(py "success", JBool false); (py "error", JStr (message e))],
           500%Z), st')
  | (Ok transcript, _) =>
      ∃ body,
        (api_transcript video_id st).1 = Ok (body, 200%Z) ∧
        json_field (py "success") body = Some (JBool true) ∧
        json_field (py "video_id") body = Some (JStr video_id)
  end.
Proof.
  unfold api_transcript, try_except, bind, os_getenv, ret.
  rewrite get_transcript_run.
  destruct (environ st !! py "YOUTUBE_PROXY") as [[|c p]|] eqn:Henv;
    cbv beta iota zeta; rewrite ?direct_attempt_run;
    cbn [world trace environ log];
    repeat match goal with
    | |- context [api_get_transcript ?v ?px ?w] =>
        destruct (api_get_transcript v px w) as [[?|?] ?];
        rewrite ?direct_attempt_run; cbn [world trace environ log]
    end;
    (split;
     [eexists; split; [cbn [snd trace log]; by rewrite <- ?app_assoc|];
      split; [repeat constructor|cbn; lia]
     |try done; by eexists]).
Qed.
End HandlerClaims.

(** C1, on the code.  The proxy attempt and the direct attempt fail and
    enumeration answers [es] and [fr]; the failure that [get_transcript]
    raises is the one built from the direct attempt's message, and it
    mentions neither language code: the failure raised inside the inner [try]
    is caught by its own bare [except]. *)
Theorem get_transcript_enumeration_detail :
  let r := (get_transcript (Api := scripted (Some [py "es"; py "fr"]))
              (py "dQw4w9WgXcQ") (State proxied_env tt [])).1 in
  r = Raise (Exception (py "No transcript available for video dQw4w9WgXcQ: blocked")) ∧
  r ≠ Raise (Exception (py "Could not get transcript. Available languages: es, fr")) ∧
  contains (py "es") (py "No transcript available for video dQw4w9WgXcQ: blocked") = false ∧
  contains (py "fr") (py "No transcript available for video dQw4w9WgXcQ: blocked") = false.
Proof.
  cbv zeta. split; [|split; [|split]].
  - rewrite get_transcript_run. vm_compute. reflexivity.
  - rewrite get_transcript_run. vm_compute. discriminate.
  - vm_compute. reflexivity.
  - vm_compute. reflexivity.
Qed.

Lemma get_transcript_fallback_witness :
  let st' := (get_transcript (Api := scripted None)
                (py "dQw4w9WgXcQ") (State proxied_env tt [])).2 in
  count is_direct_fetch (trace st') = 1 ∧ count is_enumeration (trace st') = 1.
Proof.
  cbv zeta.
  pose proof (get_transcript_fallback (Api := scripted None) (py "dQw4w9WgXcQ")
                (State proxied_env tt []) 49%N (py "0.0.0.1:3128")
                (Exception (py "proxy refused")) tt eq_refl eq_refl) as Hf.
  destruct (get_transcript (Api := scripted None) (py "dQw4w9WgXcQ")
              (State proxied_env tt [])) as [r st'].
  destruct Hf as (evs & Htrace & Hdirect & _ & _ & _ & Henum & _).
  cbn [snd]. rewrite Htrace. cbn [app trace]. by split.
Defined.

(** ** Deciding where the patterns match in a given input *)

Lemma no_url_site_before s n :
  forallb (fun j => absent (url_at (drop j s))) (seq 0 n) = true ->
  ∀ j id, j < n -> ¬ url_site s j id.
Proof.
  intros Hall j id Hj [_ Hm]%(site_drop (fun t => url_match t id)).
  rewrite forallb_forall in Hall. specialize (Hall j).
  rewrite (proj2 (url_at_Some _ _) (ex_intro _ id (conj eq_refl Hm))) in Hall.
  discriminate Hall. apply in_seq. lia.
Qed.

Lemma no_query_site_before s n :
  forallb (fun j => absent (query_at (drop j s))) (seq 0 n) = true ->
  ∀ j n' id, j < n -> ¬ query_site s j n' id.
Proof.
  intros Hall j n' id Hj [_ Hm]%(site_drop (fun t => query_match t n' id)).
  rewrite forallb_forall in Hall. specialize (Hall j).
  destruct (query_at (drop j s)) eqn:Hq.
  - discriminate Hall. apply in_seq. lia.
  - rewrite query_at_None in Hq. by destruct (Hq n' id).
Qed.

Lemma no_later_param s i t' k :
  strip (py "youtube.com/") (drop i s) = Some t' ->
  forallb (fun n => negb (forallb dot (take n t')) || absent (param_at (drop n t')))
    (seq (S k) (length t' - k)) = true ->
  ∀ n id, k < n -> ¬ query_site s i n id.
Proof.
  intros Hs Hall n id Hn [_ Hm]%(site_drop (fun t => query_match t n id)).
  apply query_match_iff in Hm as (t'' & Hs' & Hlen & Hnl & Hp).
  assert (t'' = t') as -> by congruence.
  rewrite forallb_forall in Hall. specialize (Hall n).
  rewrite Hnl, Hp in Hall. discriminate Hall. apply in_seq. lia.
Qed.

Lemma extract_video_id_overlong_witness :
  extract_video_id (py "https://youtu.be/dQw4w9WgXcQXYZ?t=42")
    = Some (py "dQw4w9WgXcQ") ∧
  extract_video_id (py "https://www.youtube.com/watch?feature=share&v=dQw4w9WgXcQXYZ&t=42")
    = Some (py "dQw4w9WgXcQ").
Proof.
  assert (id_run (py "dQw4w9WgXcQXYZ")) as Hrun.
  { split; [vm_compute; lia|all_id_chars]. }
  split.
  - refine (proj1 (extract_video_id_overlong _ (py "dQw4w9WgXcQXYZ") Hrun) _).
    apply (selected_url _ _ (py "https://") (py "youtu.be/") (py "?t=42")).
    + unfold markers. rewrite !elem_of_cons. right. by left.
    + reflexivity.
    + apply no_url_site_before. vm_compute. reflexivity.
  - refine (proj1 (extract_video_id_overlong _ (py "dQw4w9WgXcQXYZ") Hrun) _).
    apply (selected_query _ _ (py "https://www.") (py "watch?feature=share")
             38%N (py "&t=42")).
    + apply forallb_dot. vm_compute. reflexivity.
    + by right.
    + reflexivity.
    + apply re_search_url_None. vm_compute. reflexivity.
    + apply no_query_site_before. vm_compute. reflexivity.
    + eapply no_later_param; [vm_compute; reflexivity|]. vm_compute. reflexivity.
Defined.

(** C10, as the claim has it, fails: in this URL the only [v=] parameter
    begins with fifteen allowed characters, and the id is taken from the
    [embed/] segment, which the first pattern finds. *)
Lemma extract_video_id_overlong_counterexample :
  let s := py "https://www.youtube.com/embed/dQw4w9WgXcQ?v=AAAAAAAAAAAAAAA" in
  let run := py "AAAAAAAAAAAAAAA" in
  id_run run ∧ overlong_segment s run ∧
  extract_video_id s = Some (py "dQw4w9WgXcQ") ∧
  extract_video_id s ≠ Some (take 11 run).
Proof.
  cbv zeta. split; [|split; [|split]].
  - split; [vm_compute; lia|all_id_chars].
  - exists (py "https://www."), []. right.
    exists (py "embed/dQw4w9WgXcQ"), 63%N.
    split; [apply forallb_dot; vm_compute; reflexivity|]. split; [by left|].
    reflexivity.
  - vm_compute. reflexivity.
  - vm_compute. discriminate.
Qed.

(** ** The resolver on the inputs of the end-to-end scenarios *)

Example extract_bare :
  extract_video_id (py "dQw4w9WgXcQ") = Some (py "dQw4w9WgXcQ").
Proof. vm_compute. reflexivity. Qed.

Example extract_short_url :
  extract_video_id (py "https://youtu.be/dQw4w9WgXcQ") = Some (py "dQw4w9WgXcQ").
Proof. vm_compute. reflexivity. Qed.

Example extract_watch_url :
  extract_video_id (py "https://www.youtube.com/watch?v=dQw4w9WgXcQ&t=42s")
  = Some (py "dQw4w9WgXcQ").
Proof. vm_compute. reflexivity. Qed.

Example extract_query_url :
  extract_video_id (py "https://www.youtube.com/watch?feature=share&v=dQw4w9WgXcQ")
  = Some (py "dQw4w9WgXcQ").
Proof. vm_compute. reflexivity. Qed.

Example extract_last_parameter :
  extract_video_id (py "https://www.youtube.com/x?v=AAAAAAAAAAA&v=BBBBBBBBBBB")
  = Some (py "BBBBBBBBBBB").
Proof. vm_compute. reflexivity. Qed.

(** ** The end-to-end scenarios of the specification *)

Example scenario_direct_fetch :
  (get_transcript (Api := canned [Entry 0 (py "a"); Entry 75 (py "b")])
     (py "dQw4w9WgXcQ") (State ∅ tt [])).1
  = Ok [Formatted 0 (py "a") (py "00:00"); Formatted 75 (py "b") (py "01:15")].
Proof. rewrite get_transcript_run. vm_compute. reflexivity. Qed.

Example scenario_missing_input :
  (watch (Api := canned []) [(py "v", [])] (State ∅ tt [])).1
  = Ok (ErrorPage (py "No video ID provided. Please use /watch?v=VIDEO_ID"), 400%Z).
Proof. reflexivity. Qed.

Example scenario_invalid_id :
  (watch (Api := canned []) [(py "v", py "not-a-valid-id-or-url")] (State ∅ tt [])).1
  = Ok (ErrorPage (py "Invalid video ID format"), 400%Z).
Proof. vm_compute. reflexivity. Qed.

Example scenario_fetch_failure :
  (watch (Api := scripted None) [(py "v", py "https://youtu.be/dQw4w9WgXcQ")]
     (State ∅ tt [])).1
  = Ok (ErrorPage (py "No transcript available for video dQw4w9WgXcQ: blocked"),
        500%Z).
Proof. vm_compute. reflexivity. Qed.

(** ** More on the resolver *)

(** What a successful resolution is: the input itself on the fast path,
    else the leftmost match of the first pattern, else the match of the
    second pattern at its leftmost start with the longest [.*]. *)
Lemma extract_video_id_Some s id :
  extract_video_id s = Some id ↔
  (is_id s ∧ id = s) ∨
  (¬ is_id s ∧ ∃ i, url_site s i id ∧ ∀ j id', j < i -> ¬ url_site s j id') ∨
  (¬ is_id s ∧ (∀ j id', ¬ url_site s j id') ∧
   ∃ i n, query_site s i n id ∧
          (∀ j n' id', j < i -> ¬ query_site s j n' id') ∧
          (∀ n' id', n < n' -> ¬ query_site s i n' id')).
Proof.
  unfold extract_video_id. destruct (_ && _) eqn:Hfast.
  - apply fast_path_iff in Hfast. split.
    + intros [= <-]. by left.
    + intros [[_ ->]|[[H _]|[H _]]]; [done|by destruct H..].
  - assert (¬ is_id s) as Hbare.
    { intros H%fast_path_iff. congruence. }
    cbn [first_capture patterns].
    destruct (re_search url_re s) as [r|] eqn:Hu.
    + apply re_search_url_Some in Hu as (i & id0 & -> & Hsite & Hfirst).
      unfold group1. split.
      * intros [= <-]. right. left. split; [done|]. by exists i.
      * intros [[H _]|[(_ & i' & Hsite' & Hfirst')|(_ & Hno & _)]].
        -- by destruct Hbare.
        -- assert (re_search url_re s = Some (Some id)) as E1.
           { apply re_search_url_Some. by exists i', id. }
           assert (re_search url_re s = Some (Some id0)) as E2.
           { apply re_search_url_Some. by exists i, id0. }
           congruence.
        -- by destruct (Hno i id0).
    + rewrite re_search_url_None in Hu.
      destruct (re_search query_re s) as [r|] eqn:Hq.
      * apply re_search_query_Some in Hq as (i & n & id0 & -> & Hsite & Hfirst & Hlast).
        unfold group1. split.
        -- intros [= <-]. right. right. split; [done|]. split; [done|].
           by exists i, n.
        -- intros [[H _]|[(_ & i' & Hsite' & _)|(_ & _ & i' & n' & Hsite' & Hf' & Hl')]].
           ++ by destruct Hbare.
           ++ by destruct (Hu i' id).
           ++ assert (re_search query_re s = Some (Some id)) as E1.
              { apply re_search_query_Some. by exists i', n', id. }
              assert (re_search query_re s = Some (Some id0)) as E2.
              { apply re_search_query_Some. by exists i, n, id0. }
              congruence.
      * rewrite re_search_query_None in Hq. split; [done|].
        intros [[H _]|[(_ & i' & Hsite' & _)|(_ & _ & i' & n' & Hsite' & _)]].
        -- by destruct Hbare.
        -- by destruct (Hu i' id).
        -- by destruct (Hq i' n' id).
Qed.

Lemma url_site_substring s i id :
  url_site s i id -> ∃ pre post, s = pre ++ id ++ post.
Proof.
  intros (pre & t & -> & _ & m & rest & _ & -> & _).
  exists (pre ++ m), rest. by rewrite <- !app_assoc.
Qed.

Lemma query_site_substring s i n id :
  query_site s i n id -> ∃ pre post, s = pre ++ id ++ post.
Proof.
  intros (pre & t & -> & _ & mid & q & rest & -> & _).
  exists (pre ++ py "youtube.com/" ++ mid ++ q :: py "v="), rest.
  by rewrite <- !app_assoc.
Qed.

(** X1.  Whatever [extract_video_id] returns is a canonical id (11 allowed
    characters) and occurs in the input as a contiguous piece: the resolver
    never builds an id from characters that are not there. *)
Theorem extract_video_id_canonical_substring (s id : str) :
  extract_video_id s = Some id ->
  is_id id ∧ ∃ pre post, s = pre ++ id ++ post.
Proof.
  intros He. split; [by apply extract_video_id_is_id in He|].
  apply extract_video_id_Some in He
    as [[_ ->]|[(_ & i & Hsite & _)|(_ & _ & i & n & Hsite & _)]].
  - exists [], []. by rewrite app_nil_r.
  - by apply url_site_substring in Hsite.
  - by apply query_site_substring in Hsite.
Qed.

Lemma extract_video_id_canonical_substring_witness :
  is_id (py "dQw4w9WgXcQ") ∧
  ∃ pre post, py "https://youtu.be/dQw4w9WgXcQ?t=9" = pre ++ py "dQw4w9WgXcQ" ++ post.
Proof.
  apply extract_video_id_canonical_substring. vm_compute. reflexivity.
Defined.

(** X2.  Resolving is idempotent: an id that came out of [extract_video_id]
    resolves to itself. *)
Theorem extract_video_id_idempotent (s id : str) :
  extract_video_id s = Some id -> extract_video_id id = Some id.
Proof.
  intros He%extract_video_id_is_id. apply extract_video_id_Some. by left.
Qed.

Lemma extract_video_id_idempotent_witness :
  extract_video_id (py "dQw4w9WgXcQ") = Some (py "dQw4w9WgXcQ").
Proof.
  apply (extract_video_id_idempotent
           (py "https://www.youtube.com/embed/dQw4w9WgXcQ")).
  vm_compute. reflexivity.
Defined.

Lemma marker_has_dot m : m ∈ markers -> 46%N ∈ m.
Proof.
  unfold markers. rewrite !elem_of_cons.
  intros [->|[->|[->|H]]]; [| | |by apply elem_of_nil in H];
    apply list_elem_of_In; vm_compute; tauto.
Qed.

(** X3.  A string of allowed characters only, of any length other than 11
    (a truncated or overlong bare id, the empty string), does not resolve:
    there is no partial match on bare ids. *)
Theorem extract_video_id_wrong_length (s : str) :
  Forall (fun c => id_char c = true) s ->
  length s ≠ 11 ->
  extract_video_id s = None.
Proof.
  intros Hall Hlen. apply extract_video_id_None.
  assert (46%N ∉ s) as Hdot.
  { intros Hin. rewrite Forall_forall in Hall. by specialize (Hall _ Hin). }
  split; [by intros [? _]|]. split.
  - intros i id (pre & t & -> & _ & m & rest & Hm%marker_has_dot & -> & _).
    apply Hdot. set_solver.
  - intros i n id (pre & t & -> & _ & mid & q & rest & -> & _).
    apply Hdot. rewrite !elem_of_app. right. left.
    apply list_elem_of_In. vm_compute. tauto.
Qed.

Lemma extract_video_id_wrong_length_witness :
  extract_video_id (py "dQw4w9WgXcQx") = None.
Proof.
  apply extract_video_id_wrong_length; [all_id_chars|].
  vm_compute. discriminate.
Defined.

(** X4.  Pattern order: as soon as one of [youtube.com/watch?v=],
    [youtu.be/], [youtube.com/embed/] is followed by 11 allowed characters
    anywhere in the input, the result is the id at the leftmost such place,
    whatever [v=] parameters the input has besides. *)
Theorem extract_video_id_leftmost_url (s : str) (i : nat) (id : str) :
  url_site s i id ->
  ∃ j id',
    j ≤ i ∧ url_site s j id' ∧
    (∀ k id'', k < j -> ¬ url_site s k id'') ∧
    extract_video_id s = Some id'.
Proof.
  intros Hsite.
  destruct (re_search url_re s) as [r|] eqn:Hu.
  - apply re_search_url_Some in Hu as (j & id' & _ & Hsite' & Hfirst).
    exists j, id'. split.
    + destruct (decide (j ≤ i)) as [|Hlt]; [done|].
      destruct (Hfirst i id); [lia|done].
    + split; [done|]. split; [done|]. by eapply extract_first_url_site.
  - rewrite re_search_url_None in Hu. by destruct (Hu i id).
Qed.

Lemma extract_video_id_leftmost_url_witness :
  ∃ j id',
    j ≤ 34 ∧
    url_site (py "https://youtu.be/dQw4w9WgXcQ?next=youtube.com/embed/AAAAAAAAAAA") j id' ∧
    (∀ k id'', k < j ->
       ¬ url_site (py "https://youtu.be/dQw4w9WgXcQ?next=youtube.com/embed/AAAAAAAAAAA")
           k id'') ∧
    extract_video_id (py "https://youtu.be/dQw4w9WgXcQ?next=youtube.com/embed/AAAAAAAAAAA")
      = Some id'.
Proof.
  apply (extract_video_id_leftmost_url _ 34 (py "AAAAAAAAAAA")).
  exists (py "https://youtu.be/dQw4w9WgXcQ?next="), (py "youtube.com/embed/AAAAAAAAAAA").
  split; [reflexivity|]. split; [reflexivity|].
  exists (py "youtube.com/embed/"), []. split.
  - unfold markers. rewrite !elem_of_cons. right. right. by left.
  - split; [reflexivity|]. split; [reflexivity|all_id_chars].
Defined.

(** X5.  Without any match of the first pattern, the second one decides, and
    its greedy [.*] makes the last parameter win: the result is the id of a
    [?v=] or [&v=] after the leftmost [youtube.com/] that has one on its
    line, and no later such parameter on that line has 11 allowed
    characters. *)
Theorem extract_video_id_last_parameter (s : str) (i n : nat) (id : str) :
  (∀ j id', ¬ url_site s j id') ->
  query_site s i n id ->
  ∃ j m id',
    j ≤ i ∧ (j = i -> n ≤ m) ∧ query_site s j m id' ∧
    (∀ m' id'', m < m' -> ¬ query_site s j m' id'') ∧
    extract_video_id s = Some id'.
Proof.
  intros Hno Hsite.
  destruct (re_search query_re s) as [r|] eqn:Hq.
  - apply re_search_query_Some in Hq as (j & m & id' & _ & Hsite' & Hfirst & Hlast).
    exists j, m, id'. split.
    { destruct (decide (j ≤ i)) as [|Hlt]; [done|].
      destruct (Hfirst i n id); [lia|done]. }
    split.
    { intros ->. destruct (decide (n ≤ m)) as [|Hlt]; [done|].
      destruct (Hlast n id); [lia|done]. }
    split; [done|]. split; [done|]. by eapply extract_first_query_site.
  - rewrite re_search_query_None in Hq. by destruct (Hq i n id).
Qed.

Lemma extract_video_id_last_parameter_witness :
  ∃ j m id',
    j ≤ 8 ∧ (j = 8 -> 1 ≤ m) ∧
    query_site (py "https://youtube.com/x?v=AAAAAAAAAAA&v=BBBBBBBBBBB") j m id' ∧
    (∀ m' id'', m < m' ->
       ¬ query_site (py "https://youtube.com/x?v=AAAAAAAAAAA&v=BBBBBBBBBBB") j m' id'') ∧
    extract_video_id (py "https://youtube.com/x?v=AAAAAAAAAAA&v=BBBBBBBBBBB") = Some id'.
Proof.
  apply (extract_video_id_last_parameter _ 8 1 (py "AAAAAAAAAAA")).
  - apply re_search_url_None. vm_compute. reflexivity.
  - exists (py "https://"), (py "youtube.com/x?v=AAAAAAAAAAA&v=BBBBBBBBBBB").
    split; [reflexivity|]. split; [reflexivity|].
    exists (py "x"), 63%N, (py "&v=BBBBBBBBBBB").
    split; [reflexivity|]. split; [reflexivity|].
    split; [apply forallb_dot; vm_compute; reflexivity|].
    split; [by left|]. split; [reflexivity|all_id_chars].
Defined.

Lemma starts_with_app l a b :
  starts_with l a = true -> starts_with l (a ++ b) = true.
Proof.
  revert a. induction l as [|c l IH]; intros [|d a]; cbn; try done.
  rewrite !andb_true_iff. intros [? ?]. split; [done|]. by apply IH.
Qed.

Lemma marker_starts_youtu m rest :
  m ∈ markers -> starts_with (py "youtu") (m ++ rest) = true.
Proof.
  unfold markers. rewrite !elem_of_cons.
  intros [->|[->|[->|H]]]; [| | |by apply elem_of_nil in H];
    by apply starts_with_app.
Qed.

Lemma url_site_starts_youtu s j id :
  url_site s j id -> starts_with (py "youtu") (drop j s) = true.
Proof.
  intros [_ (m & rest & Hm & -> & _)]%(site_drop (fun t => url_match t id)).
  by apply marker_starts_youtu.
Qed.

(** ["youtu"] has no proper overlap with itself. *)
Lemma youtu_no_overlap p t :
  p ≠ [] ->
  starts_with (py "youtu") t = true ->
  starts_with (py "youtu") (p ++ t) = true ->
  starts_with (py "youtu") p = true.
Proof.
  change (py "youtu") with [121; 111; 117; 116; 117]%N.
  intros Hp Ht Hpt.
  destruct t as [|t0 [|t1 [|t2 [|t3 [|t4 t']]]]];
    cbn [starts_with] in Ht;
    repeat match goal with
    | H : _ && _ = true |- _ => apply andb_true_iff in H as [? ?]
    | H : (_ =? _)%N = true |- _ => apply N.eqb_eq in H
    end; try done; subst.
  destruct p as [|a [|b [|c [|d [|e p']]]]]; try done;
    cbn [starts_with app] in *;
    repeat match goal with
    | H : _ && _ = true |- _ => apply andb_true_iff in H as [? ?]
    | H : (_ =? _)%N = true |- _ => apply N.eqb_eq in H
    end; subst; try done.
Qed.

Lemma no_youtu_before pre t j :
  contains (py "youtu") pre = false ->
  starts_with (py "youtu") t = true ->
  j < length pre ->
  starts_with (py "youtu") (drop j (pre ++ t)) = false.
Proof.
  revert j. induction pre as [|a pre IH]; intros j Hc Ht Hj; [cbn in Hj; lia|].
  cbn [contains] in Hc. apply orb_false_iff in Hc as [Hs Hc].
  destruct j as [|j].
  - cbn [drop]. destruct (starts_with (py "youtu") ((a :: pre) ++ t)) eqn:E; [|done].
    apply youtu_no_overlap in E; [congruence|done|done].
  - cbn [drop app]. apply IH; [done|done|cbn in Hj; lia].
Qed.

(** X6.  A URL of one of the three direct forms resolves to its id whatever
    comes after the id and whatever comes before the form, as long as the
    text before it does not contain [youtu]: scheme, [www.], [m.] and the
    like, query parameters and trailing path segments make no difference. *)
Theorem extract_video_id_direct_form (pre m id post : str) :
  contains (py "youtu") pre = false ->
  m ∈ markers ->
  is_id id ->
  extract_video_id (pre ++ m ++ id ++ post) = Some id.
Proof.
  intros Hpre Hm Hid.
  apply (extract_first_url_site _ (length pre)).
  - exists pre, (m ++ id ++ post). split; [done|]. split; [done|].
    by exists m, post.
  - intros j id' Hj Hsite%url_site_starts_youtu.
    rewrite no_youtu_before in Hsite; [done|done| |done].
    by apply marker_starts_youtu.
Qed.

Lemma extract_video_id_direct_form_witness :
  extract_video_id (py "https://m." ++ py "youtube.com/watch?v=" ++
                    py "dQw4w9WgXcQ" ++ py "&list=PL1&t=42s#top")
  = Some (py "dQw4w9WgXcQ").
Proof.
  apply extract_video_id_direct_form.
  - vm_compute. reflexivity.
  - unfold markers. rewrite !elem_of_cons. by left.
  - split; [reflexivity|all_id_chars].
Defined.

(** ** More on the formatter *)

Lemma int_of_integer (k : Z) : int_of (inject_Z k) = k.
Proof.
  unfold int_of. destruct (Qle_bool 0 (inject_Z k)); [apply Qfloor_Z|apply Qceiling_Z].
Qed.

(** Minutes and seconds of an offset of either sign, in exact arithmetic. *)
Lemma minutes_seconds_any (x : Q) :
  int_of (floordiv x 60) = (Qfloor x / 60)%Z ∧
  int_of (pymod x 60) = (Qfloor x mod 60)%Z.
Proof.
  unfold floordiv, pymod. rewrite Qfloor_div_60, int_of_integer. split; [done|].
  pose proof (Qfloor_minus_60 x (Qfloor x / 60)) as Hm.
  pose proof (Z.mod_pos_bound (Qfloor x) 60) as Hb.
  assert (Qfloor x - 60 * (Qfloor x / 60) = Qfloor x mod 60)%Z as Hmod.
  { rewrite Z.mod_eq; lia. }
  rewrite int_of_nonneg; [lia|].
  pose proof (Qfloor_le x) as Hle.
  assert (60 * inject_Z (Qfloor x / 60) <= inject_Z (Qfloor x))%Q as Hk.
  { change 60%Q with (inject_Z 60). rewrite <- inject_Z_mult, <- Zle_Qle. lia. }
  apply (Qplus_le_l _ _ (60 * inject_Z (Qfloor x / 60))%Q).
  ring_simplify. by apply (Qle_trans _ _ _ Hk).
Qed.

Lemma format_time_nonneg (x : Q) :
  (0 <= x)%Q ->
  format_time x =
  two_digits (Z.to_N (Qfloor x / 60)) ++ py ":" ++ two_digits (Z.to_N (Qfloor x mod 60)).
Proof.
  intros Hx. pose proof (Qfloor_nonneg x Hx) as Hf.
  destruct (minutes_seconds_any x) as [Hm Hs].
  pose proof (Z.mod_pos_bound (Qfloor x) 60) as Hb.
  unfold format_time. rewrite Hm, Hs.
  rewrite !format_02d_nonneg; [done|lia|apply Z.div_pos; lia].
Qed.

Lemma digits_no_colon d : 58%N ∉ digits d.
Proof.
  induction d; cbn; rewrite ?not_elem_of_cons;
    try (split; [done|]); try done. apply not_elem_of_nil.
Qed.

Lemma two_digits_no_colon n : 58%N ∉ two_digits n.
Proof.
  unfold two_digits. pose proof (digits_no_colon (N.to_uint n)).
  destruct (n <? 10)%N; [|done]. by rewrite not_elem_of_cons.
Qed.

Lemma split_colon_app a b :
  58%N ∉ a -> split_colon (a ++ 58%N :: b) = Some (a, b).
Proof.
  induction a as [|c a IH]; intros Ha; [done|].
  apply not_elem_of_cons in Ha as [Hc Ha]. cbn.
  destruct (N.eqb_spec c 58) as [->|_]; [done|]. by rewrite IH.
Qed.

Lemma parse_time_label m sec :
  parse_time (two_digits m ++ py ":" ++ two_digits sec) = Some (60 * m + sec)%N.
Proof.
  unfold parse_time. change (py ":" ++ two_digits sec) with (58%N :: two_digits sec).
  rewrite split_colon_app by apply two_digits_no_colon.
  cbn [mbind option_bind fst snd]. by rewrite !two_digits_decode.
Qed.

(** X7.  Round trip: the label of an offset that is not negative and below
    2^53 reads back (minutes times 60 plus seconds) as the whole seconds of
    the offset, however many digits the minutes take. *)
Theorem parse_time_format_time (x : Q) :
  (0 <= x)%Q -> (x < inject_Z (2 ^ 53))%Q ->
  parse_time (format_time x) = Some (Z.to_N (Qfloor x)).
Proof.
  intros Hx _. pose proof (Qfloor_nonneg x Hx) as Hf.
  pose proof (Z.mod_pos_bound (Qfloor x) 60) as Hb.
  pose proof (Z.div_mod (Qfloor x) 60) as Hd.
  assert (0 <= Qfloor x / 60)%Z by (apply Z.div_pos; lia).
  rewrite format_time_nonneg, parse_time_label by done. f_equal. lia.
Qed.

Lemma parse_time_format_time_witness :
  parse_time (format_time (7384 # 1)) = Some 7384%N.
Proof.
  apply (parse_time_format_time (7384 # 1)); [discriminate|reflexivity].
Defined.

(** X8.  Two offsets that are not negative and below 2^53 get the same
    label exactly when they lie in the same whole second. *)
Theorem format_time_same_label (x y : Q) :
  (0 <= x)%Q -> (x < inject_Z (2 ^ 53))%Q ->
  (0 <= y)%Q -> (y < inject_Z (2 ^ 53))%Q ->
  format_time x = format_time y ↔ Qfloor x = Qfloor y.
Proof.
  intros Hx _ Hy _. split.
  - intros E.
    pose proof (Qfloor_nonneg x Hx). pose proof (Qfloor_nonneg y Hy).
    pose proof (Z.mod_pos_bound (Qfloor x) 60).
    pose proof (Z.mod_pos_bound (Qfloor y) 60).
    pose proof (Z.div_mod (Qfloor x) 60). pose proof (Z.div_mod (Qfloor y) 60).
    assert (0 <= Qfloor x / 60)%Z by (apply Z.div_pos; lia).
    assert (0 <= Qfloor y / 60)%Z by (apply Z.div_pos; lia).
    apply (f_equal parse_time) in E.
    rewrite !format_time_nonneg, !parse_time_label in E by done.
    injection E as E. lia.
  - intros E. by rewrite !format_time_nonneg, E by done.
Qed.

Lemma format_time_same_label_witness :
  format_time (1253 # 10) = format_time (125 # 1).
Proof.
  apply format_time_same_label;
    [discriminate|reflexivity|discriminate|reflexivity|reflexivity].
Defined.

Lemma two_digits_length_small n : (n < 100)%N -> length (two_digits n) = 2.
Proof.
  intros Hn.
  assert (forallb (fun k => length (two_digits (N.of_nat k)) =? 2) (seq 0 100) = true)
    as Hall by (vm_compute; reflexivity).
  rewrite forallb_forall in Hall. specialize (Hall (N.to_nat n)).
  rewrite N2Nat.id in Hall. apply Nat.eqb_eq, Hall, in_seq. lia.
Qed.

Lemma short_digits_small d : length (digits d) ≤ 2 -> (N.of_uint d < 100)%N.
Proof.
  intros Hlen.
  destruct d as [|d|d|d|d|d|d|d|d|d|d]; [vm_compute; reflexivity|..];
    (destruct d as [|d|d|d|d|d|d|d|d|d|d]; [vm_compute; reflexivity|..]);
    (destruct d; [vm_compute; reflexivity|cbn in Hlen; lia..]).
Qed.

Lemma two_digits_length_large n : (100 <= n)%N -> 3 ≤ length (two_digits n).
Proof.
  intros Hn. unfold two_digits.
  assert ((n <? 10)%N = false) as -> by (apply N.ltb_ge; lia).
  destruct (decide (length (digits (N.to_uint n)) ≤ 2)) as [Hs|]; [|lia].
  apply short_digits_small in Hs. rewrite DecimalN.Unsigned.of_to in Hs. lia.
Qed.

Lemma Qfloor_lt_iff (x : Q) (k : Z) : (Qfloor x < k)%Z ↔ (x < inject_Z k)%Q.
Proof.
  split.
  - intros H. apply (Qlt_le_trans _ _ _ (Qlt_floor x)).
    rewrite <- Zle_Qle. lia.
  - intros H. rewrite Zlt_Qlt. apply (Qle_lt_trans _ _ _ (Qfloor_le x) H).
Qed.

(** X9.  For an offset that is not negative the label has the five
    characters of [MM:SS] exactly when the offset is below 100 minutes; from
    6000 seconds on the minutes take more room and the label is longer. *)
Theorem format_time_width (x : Q) :
  (0 <= x)%Q ->
  (length (format_time x) = 5 ↔ (x < 6000)%Q) ∧ 5 ≤ length (format_time x).
Proof.
  intros Hx. pose proof (Qfloor_nonneg x Hx) as Hf.
  pose proof (Z.mod_pos_bound (Qfloor x) 60) as Hb.
  assert (0 <= Qfloor x / 60)%Z as Hm by (apply Z.div_pos; lia).
  rewrite format_time_nonneg by done.
  change (py ":" ++ ?t) with (58%N :: t). rewrite length_app. cbn [length].
  rewrite (two_digits_length_small (Z.to_N (Qfloor x mod 60))) by lia.
  pose proof (two_digits_length (Z.to_N (Qfloor x / 60))) as Hmin.
  split; [|lia].
  change 6000%Q with (inject_Z 6000). rewrite <- Qfloor_lt_iff.
  destruct (decide (Z.to_N (Qfloor x / 60) < 100)%N) as [Hlt|Hge].
  - rewrite two_digits_length_small by done. split; [|done]. intros _.
    pose proof (Z.div_mod (Qfloor x) 60). lia.
  - pose proof (two_digits_length_large (Z.to_N (Qfloor x / 60))) as Hl.
    split; [lia|]. intros Hlt. destruct Hge.
    assert (Qfloor x / 60 < 100)%Z by (apply Z.div_lt_upper_bound; lia). lia.
Qed.

Lemma format_time_width_witness :
  (length (format_time (5999 # 1)) = 5 ↔ (5999 # 1 < 6000)%Q) ∧
  5 ≤ length (format_time (5999 # 1)).
Proof. apply (format_time_width (5999 # 1)). discriminate. Defined.

Lemma digits_nonempty n : 1 ≤ length (digits (N.to_uint n)).
Proof.
  destruct (N.ltb_spec n 10).
  - by rewrite digits_length_small.
  - pose proof (digits_length_large n). lia.
Qed.

(** X10.  A negative whole number of seconds above -2^53 does not make the
    formatter fail: the label is a minus sign, the digits of the negative
    minute count [floor(start / 60)] without padding, a colon, and seconds
    that still lie between 00 and 59. *)
Theorem format_time_negative (z : Z) :
  (- 2 ^ 53 < z < 0)%Z ->
  format_time (inject_Z z) =
    py "-" ++ digits (N.to_uint (Z.to_N (- (z / 60)))) ++ py ":" ++
    two_digits (Z.to_N (z mod 60)) ∧
  (z / 60 < 0)%Z ∧ (0 ≤ z mod 60 < 60)%Z.
Proof.
  intros [_ Hz].
  pose proof (Z.mod_pos_bound z 60) as Hb.
  pose proof (Z.div_mod z 60) as Hd.
  assert (z / 60 < 0)%Z as Hm by lia.
  destruct (minutes_seconds_any (inject_Z z)) as [Em Es].
  rewrite Qfloor_Z in Em, Es.
  split; [|split; [done|lia]].
  unfold format_time. rewrite Em, Es.
  rewrite (format_02d_nonneg (z mod 60)) by lia.
  unfold format_02d at 1.
  assert ((z / 60 <? 0)%Z = true) as -> by lia.
  assert (Z.abs_N (z / 60) = Z.to_N (- (z / 60))) as -> by lia.
  pose proof (digits_nonempty (Z.to_N (- (z / 60)))) as Hne.
  change (length (py "-")) with 1.
  replace (2 - 1 - length (digits (N.to_uint (Z.to_N (- (z / 60))))))
    with 0 by lia.
  cbn [replicate app]. by rewrite <- !app_assoc.
Qed.

Lemma format_time_negative_witness :
  format_time (inject_Z (-61)) = py "-2:59".
Proof.
  refine (proj1 (format_time_negative (-61) _)). split; reflexivity.
Defined.

(** X11.  Formatting distributes over concatenation: a transcript formatted
    in two pieces and joined is the transcript formatted as a whole, so no
    segment's label depends on its neighbours. *)
Theorem format_transcript_app (l1 l2 : list entry) :
  format_transcript (l1 ++ l2) = format_transcript l1 ++ format_transcript l2.
Proof.
  unfold format_transcript. rewrite fold_left_app.
  generalize (fold_left (fun a e => a ++ [format_entry e]) l1 []).
  induction l2 as [|e l2 IH] using rev_ind; intros acc.
  - by rewrite app_nil_r.
  - rewrite !fold_left_app. cbn [fold_left]. by rewrite IH, app_assoc.
Qed.

(** ** More on the fetcher *)

Section FetcherExtras.
Context {W : Type} {Api : YouTubeTranscriptApi W}.
Implicit Types (st : state W) (video_id : str).

(** X12.  Every failure of [get_transcript] is the failure of a direct
    attempt, wrapped as [No transcript available for video <id>: <reason>];
    the message that lists the available languages never reaches the
    caller, whatever enumeration returned. *)
Theorem get_transcript_failure_message video_id st e :
  (get_transcript video_id st).1 = Raise e ->
  ∃ e' w w',
    api_get_transcript video_id None w = (Raise e', w') ∧
    e = no_transcript video_id e' ∧
    ∀ codes,
      message e ≠
      py "Could not get transcript. Available languages: " ++ join (py ", ") codes.
Proof.
  assert (∀ st0 : state W,
            (direct_attempt video_id st0).1 = Raise e ->
            ∃ e' w w',
              api_get_transcript video_id None w = (Raise e', w') ∧
              e = no_transcript video_id e' ∧
              ∀ codes,
                message e ≠
                py "Could not get transcript. Available languages: "
                   ++ join (py ", ") codes) as Hdirect.
  { intros st0. rewrite direct_attempt_run.
    destruct (api_get_transcript video_id None (world st0)) as [[t|e'] w'] eqn:Hd;
      [done|].
    intros [= <-]. exists e', (world st0), w'. split; [done|]. split; [done|].
    intros codes Hmsg. vm_compute in Hmsg. discriminate Hmsg. }
  rewrite get_transcript_run.
  destruct (environ st !! py "YOUTUBE_PROXY") as [[|c p]|]; cbv beta iota zeta;
    [apply Hdirect| |apply Hdirect].
  destruct (api_get_transcript video_id (Some (proxies_for (c :: p))) (world st))
    as [[t|e0] w0]; [done|apply Hdirect].
Qed.

(** X13.  One call makes at most one proxied retrieval, one direct
    retrieval, one enumeration and one print, and never touches the
    environment.  Enumeration happens exactly on the failing calls; the
    direct retrieval is skipped only when the proxied one succeeded; a line
    is printed only between a failed proxied retrieval and the direct one. *)
Theorem get_transcript_call_budget video_id st :
  let '(r, st') := get_transcript video_id st in
  environ st' = environ st ∧
  ∃ evs,
    trace st' = trace st ++ evs ∧
    count is_proxy_fetch evs ≤ 1 ∧ count is_direct_fetch evs ≤ 1 ∧
    count is_enumeration evs ≤ 1 ∧ count is_print evs ≤ 1 ∧
    match r with
    | Ok _ => count is_enumeration evs = 0
    | Raise _ => count is_direct_fetch evs = 1 ∧ count is_enumeration evs = 1
    end ∧
    (count is_direct_fetch evs = 0 ->
     count is_proxy_fetch evs = 1 ∧ ∃ transcript, r = Ok transcript) ∧
    (count is_print evs = 1 ->
     count is_proxy_fetch evs = 1 ∧ count is_direct_fetch evs = 1).
Proof.
  rewrite get_transcript_run.
  destruct (environ st !! py "YOUTUBE_PROXY") as [[|c p]|] eqn:Henv;
    cbv beta iota zeta; rewrite ?direct_attempt_run;
    cbn [world trace environ log];
    repeat match goal with
    | |- context [api_get_transcript ?v ?px ?w] =>
        destruct (api_get_transcript v px w) as [[?|?] ?];
        rewrite ?direct_attempt_run; cbn [world trace environ log]
    end;
    (split; [done|]); eexists;
    (split; [by rewrite <- ?app_assoc|]); cbn;
    repeat split; try lia; try done; by eexists.
Qed.
End FetcherExtras.

Lemma get_transcript_failure_message_witness :
  ∃ e' w w',
    api_get_transcript (YouTubeTranscriptApi := scripted (Some [py "de"]))
      (py "dQw4w9WgXcQ") None w = (Raise e', w') ∧
    Exception (py "No transcript available for video dQw4w9WgXcQ: blocked")
      = no_transcript (py "dQw4w9WgXcQ") e' ∧
    ∀ codes,
      py "No transcript available for video dQw4w9WgXcQ: blocked" ≠
      py "Could not get transcript. Available languages: " ++ join (py ", ") codes.
Proof.
  apply (get_transcript_failure_message (Api := scripted (Some [py "de"]))
           (py "dQw4w9WgXcQ") (State ∅ tt [])).
  rewrite get_transcript_run. vm_compute. reflexivity.
Defined.

(** ** More on the handlers and on startup *)

Section HandlerExtras.
Context {W : Type} {Api : YouTubeTranscriptApi W}.
Implicit Types (st : state W) (video_id : str).

Lemma get_transcript_about video_id st :
  ∃ evs,
    trace (get_transcript video_id st).2 = trace st ++ evs ∧
    Forall (about video_id) evs ∧
    1 ≤ count is_direct_fetch evs + count is_proxy_fetch evs.
Proof.
  rewrite get_transcript_run.
  destruct (environ st !! py "YOUTUBE_PROXY") as [[|c p]|] eqn:Henv;
    cbv beta iota zeta; rewrite ?direct_attempt_run;
    cbn [world trace environ log];
    repeat match goal with
    | |- context [api_get_transcript ?v ?px ?w] =>
        destruct (api_get_transcript v px w) as [[?|?] ?];
        rewrite ?direct_attempt_run; cbn [world trace environ log]
    end;
    eexists; (split; [cbn [snd trace]; by rewrite <- ?app_assoc|]);
    (split; [repeat constructor|cbn; lia]).
Qed.

(** X14.  [/watch] resolves before it fetches: when the [v] argument
    resolves to an id, every call to the transcript library made for the
    request names that id, not the argument as given, at least one retrieval
    is made, and a page answered with 200 shows that id. *)
Theorem watch_fetches_resolved_id (args : list (str * str)) st param video_id :
  args_get args (py "v") = Some param ->
  extract_video_id param = Some video_id ->
  let '(r, st') := watch args st in
  (∃ evs,
     trace st' = trace st ++ evs ∧
     Forall (about video_id) evs ∧
     1 ≤ count is_direct_fetch evs + count is_proxy_fetch evs) ∧
  ∀ page, r = Ok (page, 200%Z) ->
    ∃ transcript proxy_used, page = TranscriptPage video_id transcript proxy_used.
Proof.
  intros Hv He. unfold watch. rewrite Hv.
  destruct param as [|c p]; [vm_compute in He; discriminate He|]. rewrite He.
  pose proof (extract_video_id_is_id _ _ He) as [Hlen _].
  destruct video_id as [|d i]; [done|].
  destruct (get_transcript_about (d :: i) st) as (evs & Htrace & Habout & Hn).
  unfold try_except, bind, os_getenv, ret.
  destruct (get_transcript (d :: i) st) as [[t|e] st1]; cbn [snd] in Htrace.
  - split.
    + exists (evs ++ [Getenv (py "YOUTUBE_PROXY")]).
      cbn [trace log]. rewrite Htrace, <- app_assoc. split; [done|]. split.
      * apply Forall_app. split; [done|]. by repeat constructor.
      * assert (∀ f a b, count f (a ++ b) = count f a + count f b) as Hc.
        { intros f a b. induction a as [|x a IH]; cbn; [done|]. rewrite IH. lia. }
        rewrite !Hc. lia.
    + intros page [= <-]. by eexists _, _.
  - split; [by exists evs|]. intros page [=].
Qed.

(** X15.  On a canonical id the two endpoints agree: [/watch?v=<id>] and
    [/api/transcript/<id>] leave the same state behind (the same calls in
    the same order), answer with the same status, and report a failure with
    the same message. *)
Theorem endpoints_agree_on_ids (args : list (str * str)) st video_id :
  is_id video_id ->
  args_get args (py "v") = Some video_id ->
  (watch args st).2 = (api_transcript video_id st).2 ∧
  ∃ page body status,
    (watch args st).1 = Ok (page, status) ∧
    (api_transcript video_id st).1 = Ok (body, status) ∧
    ∀ msg, page = ErrorPage msg ↔ json_field (py "error") body = Some (JStr msg).
Proof.
  intros Hid Hv.
  assert (extract_video_id video_id = Some video_id) as He.
  { apply extract_video_id_Some. by left. }
  destruct Hid as [Hlen _]. destruct video_id as [|d i]; [done|].
  unfold watch, api_transcript. rewrite Hv, He.
  unfold try_except, bind, os_getenv, ret.
  destruct (get_transcript (d :: i) st) as [[t|e] st1]; cbn [fst snd].
  - split; [done|]. eexists _, _, _. split; [done|]. split; [done|].
    intros msg. split; [done|]. intros H. vm_compute in H. discriminate H.
  - split; [done|]. eexists _, _, _. split; [done|]. split; [done|].
    intros msg. split.
    + intros [= <-]. vm_compute. reflexivity.
    + intros H. vm_compute in H. by injection H as <-.
Qed.

(** X16.  [proxy_used] reports the configuration, not the route taken: with
    a proxy configured, the proxied retrieval failing and the direct one
    succeeding, the JSON answer is a success with status 200, carries the
    segments of the direct retrieval, and still names the proxy. *)
Theorem proxy_used_reports_configuration video_id st c p e w segments w' :
  environ st !! py "YOUTUBE_PROXY" = Some (c :: p) ->
  api_get_transcript video_id (Some (proxies_for (c :: p))) (world st)
    = (Raise e, w) ->
  api_get_transcript video_id None w = (Ok segments, w') ->
  ∃ body,
    (api_transcript video_id st).1 = Ok (body, 200%Z) ∧
    json_field (py "success") body = Some (JBool true) ∧
    json_field (py "proxy_used") body = Some (JStr (c :: p)) ∧
    json_field (py "transcript") body
      = Some (JArr (map json_of_entry (format_transcript segments))).
Proof.
  intros Henv Hproxy Hdirect.
  unfold api_transcript, try_except, bind, os_getenv, ret.
  rewrite get_transcript_run, Henv. cbv beta iota zeta. rewrite Hproxy.
  rewrite direct_attempt_run. cbn [world trace environ log]. rewrite Hdirect.
  cbn [environ fst]. rewrite Henv. eexists. split; [done|].
  split; [vm_compute; reflexivity|]. split; [done|done].
Qed.

(** X17.  The startup banner and the fetcher read the same variable but do
    not agree on what an unset one means: unset, the banner announces the
    built-in address [45.76.97.117:3128] while [get_transcript] makes no
    proxied retrieval; set to the empty string, the banner says that no
    proxy is configured and none is used; set to anything else, the banner
    names it and one proxied retrieval is made. *)
Theorem startup_banner_and_fetcher video_id st :
  ∃ line evs,
    startup_banner st
      = (Ok tt, log (Print line) (log (Getenv (py "YOUTUBE_PROXY")) st)) ∧
    trace (get_transcript video_id st).2 = trace st ++ evs ∧
    match environ st !! py "YOUTUBE_PROXY" with
    | None =>
        line = py "Using proxy: 45.76.97.117:3128" ∧ count is_proxy_fetch evs = 0
    | Some [] =>
        line = py "No proxy configured - using direct connection" ∧
        count is_proxy_fetch evs = 0
    | Some (c :: p) =>
        line = py "Using proxy: " ++ c :: p ∧ count is_proxy_fetch evs = 1
    end.
Proof.
  unfold startup_banner, bind, os_getenv, print. cbn [environ log].
  rewrite get_transcript_run.
  destruct (environ st !! py "YOUTUBE_PROXY") as [[|c p]|] eqn:Henv;
    cbv beta iota zeta; rewrite ?direct_attempt_run;
    cbn [world trace environ log default];
    repeat match goal with
    | |- context [api_get_transcript ?v ?px ?w] =>
        destruct (api_get_transcript v px w) as [[?|?] ?];
        rewrite ?direct_attempt_run; cbn [world trace environ log]
    end;
    eexists _, _; (split; [reflexivity|]);
    (split; [cbn [snd trace]; by rewrite <- ?app_assoc|]); by split.
Qed.
End HandlerExtras.

Lemma watch_fetches_resolved_id_witness :
  let '(r, st') :=
    watch (Api := scripted None) [(py "v", py "https://youtu.be/dQw4w9WgXcQ")]
      (State ∅ tt []) in
  (∃ evs,
     trace st' = [] ++ evs ∧
     Forall (about (py "dQw4w9WgXcQ")) evs ∧
     1 ≤ count is_direct_fetch evs + count is_proxy_fetch evs) ∧
  ∀ page, r = Ok (page, 200%Z) ->
    ∃ transcript proxy_used,
      page = TranscriptPage (py "dQw4w9WgXcQ") transcript proxy_used.
Proof.
  apply (watch_fetches_resolved_id (Api := scripted None)
           [(py "v", py "https://youtu.be/dQw4w9WgXcQ")] (State ∅ tt [])
           (py "https://youtu.be/dQw4w9WgXcQ") (py "dQw4w9WgXcQ"));
    vm_compute; reflexivity.
Defined.

Lemma endpoints_agree_on_ids_witness :
  (watch (Api := canned [Entry 0 (py "a")]) [(py "v", py "dQw4w9WgXcQ")]
     (State ∅ tt [])).2
  = (api_transcript (Api := canned [Entry 0 (py "a")]) (py "dQw4w9WgXcQ")
       (State ∅ tt [])).2.
Proof.
  refine (proj1 (endpoints_agree_on_ids (Api := canned [Entry 0 (py "a")])
                   [(py "v", py "dQw4w9WgXcQ")] (State ∅ tt [])
                   (py "dQw4w9WgXcQ") _ _)).
  - split; [reflexivity|all_id_chars].
  - vm_compute. reflexivity.
Defined.

Lemma proxy_used_reports_configuration_witness :
  ∃ body,
    (api_transcript (Api := proxy_down [Entry 0 (py "a")]) (py "dQw4w9WgXcQ")
       (State proxied_env tt [])).1 = Ok (body, 200%Z) ∧
    json_field (py "success") body = Some (JBool true) ∧
    json_field (py "proxy_used") body = Some (JStr (py "10.0.0.1:3128")) ∧
    json_field (py "transcript") body
      = Some (JArr (map json_of_entry (format_transcript [Entry 0 (py "a")]))).
Proof.
  apply (proxy_used_reports_configuration (Api := proxy_down [Entry 0 (py "a")])
           (py "dQw4w9WgXcQ") (State proxied_env tt []) 49%N (py "0.0.0.1:3128")
           (Exception (py "proxy refused")) tt [Entry 0 (py "a")] tt);
    reflexivity.
Defined.
